(** * A shallow embedding of the workflow engine (engine/WorkflowEngine.ts),
      the node base class (nodes/BaseNode.ts), the built-in node types, the
      workflow factories and the Jira agent.

    JavaScript objects used as dictionaries (parameter and credential bags,
    the connections map, data bags) are finite maps keyed by strings, read
    as the code reads them: [o[k]] gives the own property, and for a key the
    object does not have, what every plain object inherits from
    [Object.prototype] under that name, or [undefined].  Arrays are lists.
    Numbers are integers; the code modelled here tests them for truthiness
    and leaves their arithmetic to the runtime.

    Data bags are passed by reference.  A run of the engine works on a store
    of bags: the bag its caller passed in and the bags the run creates.  A
    node class, which is code from outside the engine, is handed a reference
    and may change any bag of the store.  What the trace and the execution
    record show of a bag is its content at that moment.  Workflow
    definitions and their nodes are values: the engine does not write to a
    definition, and a node class is taken not to write to the definition it
    is run for.

    The outside world the nodes talk to (HTTP, child processes, the clock)
    is an abstract [World] threaded through every call.  An [await]ed call is
    a function of the world that returns normally or throws; the engine
    awaits every call before the next one, so a run is a sequence.

    The engine is instrumented with a trace of the calls it makes into
    node classes, of their constructor and of [execute], and the recursion
    of the chain walker is bounded by a fuel. *)

From stdpp Require Import base option list gmap strings fin_maps pretty relations.
From Stdlib Require Import ZArith Lia.

Open Scope string_scope.
Open Scope Z_scope.
Open Scope list_scope.

(** ** JavaScript values *)

(** [JInherited name] is what a plain object has under [name] without
    setting it: the property of [Object.prototype], a function such as
    [toString], or for [__proto__] the prototype itself. *)
#[warnings="-register-all"]
Inductive JSValue : Type :=
| JUndefined
| JNull
| JBool (b : bool)
| JNum (n : Z)
| JStr (s : string)
| JArr (items : list JSValue)
| JObj (fields : list (string * JSValue))
| JInherited (name : string).

(** [!v] is [negb (truthy v)]: undefined, null, false, 0 and the empty
    string are falsy, every object, array and function is truthy. *)
Definition truthy (v : JSValue) : bool :=
  match v with
  | JUndefined | JNull => false
  | JBool b => b
  | JNum n => negb (n =? 0)
  | JStr s => negb (String.eqb s "")
  | JArr _ | JObj _ | JInherited _ => true
  end.

(** The property names of [Object.prototype]. *)
Definition Object_prototype : list string :=
  [ "constructor"; "__defineGetter__"; "__defineSetter__"; "hasOwnProperty";
    "__lookupGetter__"; "__lookupSetter__"; "isPrototypeOf";
    "propertyIsEnumerable"; "toString"; "valueOf"; "__proto__";
    "toLocaleString" ].

Definition inherited (k : string) : bool := existsb (String.eqb k) Object_prototype.

(** [o[k]] on a plain object: the own property, else the inherited one,
    else [undefined]. *)
Definition js_get (o : gmap string JSValue) (k : string) : JSValue :=
  match o !! k with
  | Some v => v
  | None => if inherited k then JInherited k else JUndefined
  end.

(** [a ?? b]. *)
Definition nullish (a b : JSValue) : JSValue :=
  match a with
  | JUndefined | JNull => b
  | _ => a
  end.

(** The object literal [{ ...own, ...spread }]: properties written first are
    overwritten by the properties spread after them.  A spread copies own
    properties only. *)
Definition spread_after (own spread : gmap string JSValue) : gmap string JSValue :=
  spread ∪ own.

(** ** types/index.ts *)

Abbreviation WorkflowData := (gmap string JSValue) (only parsing).

Inductive WorkflowStatus : Type := running | success | error | cancelled.

Record Position : Type := { pos_x : Z; pos_y : Z }.

Record WorkflowNode : Type := {
  node_id : string;
  node_type : string;
  node_name : string;
  node_position : Position;
  node_parameters : gmap string JSValue;
  node_credentials : option (gmap string JSValue);
}.

Record WorkflowConnection : Type := {
  conn_node : string;
  conn_type : string;
  conn_index : Z;
}.

(** [WorkflowExecution] and [NodeExecuteResult].  Their [data] is a bag:
    a reference where the engine handles it, its content where a record or
    a result is shown to the caller or in the trace. *)
Record WorkflowExecution' (Data : Type) : Type := {
  ex_id : string;
  ex_status : WorkflowStatus;
  ex_startTime : Z;
  ex_endTime : option Z;
  ex_data : Data;
  ex_error : option string;
}.
Arguments ex_id {Data} _.
Arguments ex_status {Data} _.
Arguments ex_startTime {Data} _.
Arguments ex_endTime {Data} _.
Arguments ex_data {Data} _.
Arguments ex_error {Data} _.

Record NodeExecuteResult' (Data : Type) : Type := {
  res_success : bool;
  res_data : option Data;
  res_error : option string;
}.
Arguments res_success {Data} _.
Arguments res_data {Data} _.
Arguments res_error {Data} _.

Abbreviation WorkflowExecution := (WorkflowExecution' (gmap string JSValue)).
Abbreviation NodeExecuteResult := (NodeExecuteResult' (gmap string JSValue)).

Record WorkflowDefinition : Type := {
  wf_id : string;
  wf_name : string;
  nodes : list WorkflowNode;
  connections : gmap string (list WorkflowConnection);
  active : bool;
  settings : gmap string JSValue;
}.

(** ** Exceptions *)

(** What the code of the repository and the Node runtime throw: an [Error]
    carrying its message, or some other value that has a text, kept as the
    text [String(value)] gives for it. *)
Inductive Thrown : Type :=
| ErrorObj (message : string)
| NonError (text : string).

(** [error instanceof Error ? error.message : String(error)] *)
Definition error_message (e : Thrown) : string :=
  match e with
  | ErrorObj m => m
  | NonError t => t
  end.

(** What a node class registered from outside may throw: any value.  Beyond
    the values above there are those whose text cannot be had, such as an
    object without prototype, one whose [toString] throws, or an [Error]
    whose [message] is a getter that throws: asking for the text throws in
    turn, the value [raised]. *)
Inductive Exception : Type :=
| Value (e : Thrown)
| Inconvertible (raised : Exception).
Coercion Value : Thrown >-> Exception.

Inductive Completion' (E A : Type) : Type :=
| Normal (a : A)
| Throw (e : E).
Arguments Normal {E A} a.
Arguments Throw {E A} & e.

(** A call into the repository's own code, and a call into any code. *)
Abbreviation Completion := (Completion' Thrown).
Abbreviation Outcome := (Completion' Exception).

Definition widen {A} (c : Completion A) : Outcome A :=
  match c with
  | Normal a => Normal a
  | Throw e => Throw (Value e)
  end.

(** [error instanceof Error ? error.message : String(error)] on any thrown
    value: the expression itself throws when the value cannot be converted. *)
Definition describe (e : Exception) : Outcome string :=
  match e with
  | Value v => Normal (error_message v)
  | Inconvertible raised => Throw raised
  end.

(** ** Start node resolution *)

(** The set built by the two nested loops of [findStartNode];
    [Object.values] lists own properties only. *)
Definition connectedNodes (wf : WorkflowDefinition) : gset string :=
  foldl (fun acc conns =>
           foldl (fun acc' c => acc' ∪ {[ conn_node c ]}) acc conns)
        ∅ (map_to_list (connections wf)).*2.

Fixpoint first_unconnected (connected : gset string) (l : list WorkflowNode)
  : option WorkflowNode :=
  match l with
  | [] => None
  | n :: rest =>
      if decide (node_id n ∈ connected) then first_unconnected connected rest
      else Some n
  end.

Definition findStartNode (wf : WorkflowDefinition) : option WorkflowNode :=
  first_unconnected (connectedNodes wf) (nodes wf).

(** What the specification calls a connection target. *)
Definition is_target (wf : WorkflowDefinition) (i : string) : Prop :=
  ∃ k conns c, connections wf !! k = Some conns ∧ c ∈ conns ∧ conn_node c = i.

(** ** Successor selection *)

(** The message of the [TypeError] that [for (const connection of
    connections)] throws in Node when [connections] cannot be iterated. *)
Definition not_iterable : string := "connections is not iterable".

(** The loop of [getNextNodes]: one [workflow.nodes.find] per connection; a
    connection naming no node adds nothing to the result. *)
Definition nextNodes_of (wf : WorkflowDefinition) (conns : list WorkflowConnection)
  : list WorkflowNode :=
  foldl (fun nextNodes c =>
           match find (fun n => bool_decide (node_id n = conn_node c)) (nodes wf) with
           | Some nextNode => nextNodes ++ [nextNode]
           | None => nextNodes
           end)
        [] conns.

(** [workflow.connections[currentNodeId] || []], then the loop.  An own
    entry is an array, which is truthy also when empty.  Without an own
    entry the lookup gives [undefined], replaced by [[]], unless the id is a
    property name of [Object.prototype]: then it gives the inherited value,
    which is truthy and cannot be iterated. *)
Definition getNextNodes (wf : WorkflowDefinition) (currentNodeId : string)
  : Completion (list WorkflowNode) :=
  match connections wf !! currentNodeId with
  | Some conns => Normal (nextNodes_of wf conns)
  | None =>
      if inherited currentNodeId then Throw (ErrorObj not_iterable)
      else Normal (nextNodes_of wf [])
  end.

(** [return node.credentials || {}] *)
Definition extractCredentials (n : WorkflowNode) (_workflow : WorkflowDefinition)
  : gmap string JSValue :=
  default ∅ (node_credentials n).

(** ** nodes/BaseNode.ts *)

(** The two fields the [BaseNode] constructor stores. *)
Record BaseNode : Type := {
  this_node : WorkflowNode;
  this_credentials : gmap string JSValue;
}.

(** [this.node.parameters[name] ?? defaultValue]; a call without a default
    passes [JUndefined]. *)
Definition getParameter (self : BaseNode) (name : string) (defaultValue : JSValue)
  : JSValue :=
  nullish (js_get (node_parameters (this_node self)) name) defaultValue.

Definition getCredential (self : BaseNode) (name : string) : JSValue :=
  js_get (this_credentials self) name.

Definition createSuccessResult {Data} (data : Data) : NodeExecuteResult' Data :=
  {| res_success := true; res_data := Some data; res_error := None |}.

Definition createErrorResult {Data} (err : string) : NodeExecuteResult' Data :=
  {| res_success := false; res_data := None; res_error := Some err |}.

Fixpoint validateRequiredParameters (self : BaseNode) (requiredParams : list string)
  : Completion unit :=
  match requiredParams with
  | [] => Normal tt
  | param :: rest =>
      if negb (truthy (js_get (node_parameters (this_node self)) param)) then
        Throw (ErrorObj ("Required parameter '" +:+ param +:+ "' is missing"))
      else validateRequiredParameters self rest
  end.

Fixpoint validateRequiredCredentials (self : BaseNode) (requiredCreds : list string)
  : Completion unit :=
  match requiredCreds with
  | [] => Normal tt
  | cred :: rest =>
      if negb (truthy (js_get (this_credentials self) cred)) then
        Throw (ErrorObj ("Required credential '" +:+ cred +:+ "' is missing"))
      else validateRequiredCredentials self rest
  end.

(** ** The store of data bags *)

(** A reference is the position of a bag in the store.  A position the store
    does not have reads as the empty bag. *)
Abbreviation Ref := nat (only parsing).
Abbreviation Heap := (list (gmap string JSValue)) (only parsing).

Definition deref (h : Heap) (r : Ref) : WorkflowData := default ∅ (h !! r).

(** What a result shows when it is looked at in the store [h]. *)
Definition seen (h : Heap) (result : NodeExecuteResult' Ref) : NodeExecuteResult :=
  {| res_success := res_success result;
     res_data := deref h <$> res_data result;
     res_error := res_error result |}.

Definition snapshot (h : Heap) (outcome : Outcome (NodeExecuteResult' Ref))
  : Outcome NodeExecuteResult :=
  match outcome with
  | Normal result => Normal (seen h result)
  | Throw e => Throw e
  end.

(** ** The JavaScript [Map] *)

(** [map.get(k)] and [map.set(k, v)] on the entries of a map: the entry of
    a key that is there gets the new value where it stands, and a new key is
    added at the end. *)
Fixpoint get_entry {V} (k : string) (entries : list (string * V)) : option V :=
  match entries with
  | [] => None
  | (k', v') :: rest => if decide (k' = k) then Some v' else get_entry k rest
  end.

Fixpoint set_entry {V} (k : string) (v : V) (entries : list (string * V))
  : list (string * V) :=
  match entries with
  | [] => [(k, v)]
  | (k', v') :: rest =>
      if decide (k' = k) then (k, v) :: rest else (k', v') :: set_entry k v rest
  end.

(** A [Map] with string keys: its entries in the order in which their keys
    were first set, no key twice.  No key is inherited. *)
Record JSMap (V : Type) : Type := {
  map_entries : list (string * V);
  map_distinct : bool_decide (NoDup map_entries.*1);
}.
Arguments map_entries {V} _.
Arguments map_distinct {V} _.

(** [new Map()] *)
#[global] Instance JSMap_empty {V} : Empty (JSMap V) :=
  {| map_entries := []; map_distinct := I |}.

#[global] Instance JSMap_lookup {V} : Lookup string V (JSMap V) :=
  fun k m => get_entry k (map_entries m).

#[global] Program Instance JSMap_insert {V} : Insert string V (JSMap V) :=
  fun k v m => {| map_entries := set_entry k v (map_entries m) |}.
Next Obligation.
  intros V k v m. apply bool_decide_pack.
  pose proof (bool_decide_unpack _ (map_distinct m)) as Hdistinct.
  revert Hdistinct. generalize (map_entries m). clear m. intros entries.
  assert (∀ l x, x ∈ (set_entry k v l).*1 → x = k ∨ x ∈ l.*1) as Hin.
  { induction l as [|[k' v'] rest IH]; intros x; simpl set_entry.
    - intros ->%list_elem_of_singleton. by left.
    - destruct (decide (k' = k)) as [->|?]; rewrite !fmap_cons; simpl fst.
      + intros ?. by right.
      + intros [->|Hx]%elem_of_cons; [right; by left|].
        destruct (IH _ Hx) as [?|?]; [by left | right; by right]. }
  induction entries as [|[k' v'] rest IH]; intros Hdistinct.
  - apply NoDup_singleton.
  - rewrite fmap_cons in Hdistinct. apply NoDup_cons in Hdistinct as [Hnew Hrest].
    simpl set_entry. destruct (decide (k' = k)) as [->|Hne]; rewrite fmap_cons; simpl fst.
    + by apply NoDup_cons_2.
    + apply NoDup_cons_2; [|by apply IH].
      intros Hk. apply Hin in Hk as [?|?]; [|done]. by subst.
Qed.

(** [Array.from(map.keys())] *)
Definition Map_keys {V} (m : JSMap V) : list string := (map_entries m).*1.

(** ** The instrumented engine *)

(** What the engine does to node classes: [new NodeClass(node, credentials)]
    that gave an instance, or threw, and [nodeInstance.execute(inputData)],
    with the content of the input bag when the call is made and what the
    call gave back, as it shows when the call returns. *)
Inductive Event : Type :=
| EvNew (n : WorkflowNode) (creds : gmap string JSValue)
| EvNewThrew (n : WorkflowNode) (creds : gmap string JSValue) (e : Exception)
| EvExecute (n : WorkflowNode) (input : WorkflowData)
            (outcome : Outcome NodeExecuteResult).

Inductive Run (A : Type) : Type :=
| Finished (c : Outcome A)
| Unfinished.
Arguments Finished {A} c.
Arguments Unfinished {A}.

(** *** A state-and-exception monad.  The recursion of the chain walker
    is bounded by a fuel; a run that needs more is [Unfinished], and
    keeps the state and the trace it has reached. *)
Definition M (State A : Type) : Type := State → Run A * State.

Definition ret {State A} (a : A) : M State A := fun s => (Finished (Normal a), s).
Definition throw {State A} (e : Exception) : M State A :=
  fun s => (Finished (Throw e), s).
Definition bind {State A B} (m : M State A) (k : A → M State B) : M State B :=
  fun s =>
    match m s with
    | (Finished (Normal a), s') => k a s'
    | (Finished (Throw e), s') => (Finished (Throw e), s')
    | (Unfinished, s') => (Unfinished, s')
    end.
Definition try_catch {State A} (body : M State A) (handler : Exception → M State A)
  : M State A :=
  fun s =>
    match body s with
    | (Finished (Throw e), s') => handler e s'
    | r => r
    end.
Definition out_of_fuel {State A} : M State A := fun s => (Unfinished, s).
(** A call that leaves the state alone. *)
Definition pure_call {State A} (c : Outcome A) : M State A := fun s => (Finished c, s).

#[global] Instance M_ret {State} : MRet (M State) := @ret State.
#[global] Instance M_bind {State} : MBind (M State) := fun A B k m => bind m k.

Section Engine.
Context {World : Type}.
(** [Date.now()] and [new Date()], as milliseconds. *)
Variable clock : World → Z.

(** A node class is its constructor, which gives the two fields of the new
    instance or throws, and its [execute] method, with [this] as first
    argument, which is handed a reference to its input bag.  Both are code
    from outside the engine and may change the world before they return or
    throw.  [execute] may also change the store, the bag it was handed
    included, and its result may refer to any bag, the one it was handed or
    another.  The constructor is handed no bag and is taken to change none.
    What else an instance keeps is part of the world. *)
Record NodeClass : Type := {
  construct : WorkflowNode → gmap string JSValue → World → Outcome BaseNode * World;
  execute_method :
    BaseNode → Ref → Heap → World → Outcome (NodeExecuteResult' Ref) * Heap * World;
}.

(** The constructor of [BaseNode], which the node classes of the repository
    inherit: [this.node = node; this.credentials = credentials]. *)
Definition BaseNode_constructor (n : WorkflowNode) (creds : gmap string JSValue)
           (w : World) : Outcome BaseNode * World :=
  (Normal {| this_node := n; this_credentials := creds |}, w).

Record NodeInstance : Type := {
  instance_this : BaseNode;
  instance_class : NodeClass;
}.

Definition execute (inst : NodeInstance) (inputData : Ref) (h : Heap) (w : World)
  : Outcome (NodeExecuteResult' Ref) * Heap * World :=
  execute_method (instance_class inst) (instance_this inst) inputData h w.

Record WorkflowEngine : Type := { nodeRegistry : JSMap NodeClass }.

Definition registerNode (type : string) (nodeClass : NodeClass)
           (eng : WorkflowEngine) : WorkflowEngine :=
  {| nodeRegistry := <[type := nodeClass]> (nodeRegistry eng) |}.

Definition getAvailableNodes (eng : WorkflowEngine) : list string :=
  Map_keys (nodeRegistry eng).

(** What a caller of the engine sees, and what a run works on. *)
Record St : Type := { world : World; trace : list Event }.
Record Machine : Type := { state : St; heap : Heap }.

Definition emit (ev : Event) : M Machine unit :=
  fun m => (Finished (Normal tt),
            {| state := {| world := world (state m); trace := trace (state m) ++ [ev] |};
               heap := heap m |}).
Definition now : M Machine Z :=
  fun m => (Finished (Normal (clock (world (state m)))), m).
(** The content of a bag, and a new bag. *)
Definition read (r : Ref) : M Machine WorkflowData :=
  fun m => (Finished (Normal (deref (heap m) r)), m).
Definition new_object (content : WorkflowData) : M Machine Ref :=
  fun m => (Finished (Normal (length (heap m))),
            {| state := state m; heap := heap m ++ [content] |}).
(** A computation on the store [h], seen from outside. *)
Definition with_store {A} (h : Heap) (body : M Machine A) : M St A :=
  fun s =>
    let '(r, m) := body {| state := s; heap := h |} in
    (r, state m).

(** [new NodeClass(node, credentials)], recorded in the trace. *)
Definition new (NodeClass_ : NodeClass) (n : WorkflowNode)
           (credentials : gmap string JSValue) : M Machine NodeInstance :=
  fun m =>
    let '(outcome, w') := construct NodeClass_ n credentials (world (state m)) in
    match outcome with
    | Normal this =>
        (Finished (Normal {| instance_this := this; instance_class := NodeClass_ |}),
         {| state := {| world := w';
                        trace := trace (state m) ++ [EvNew n credentials] |};
            heap := heap m |})
    | Throw e =>
        (Finished (Throw e),
         {| state := {| world := w';
                        trace := trace (state m) ++ [EvNewThrew n credentials e] |};
            heap := heap m |})
    end.

(** [await nodeInstance.execute(inputData)] on the instance made for
    [currentNode], recorded in the trace. *)
Definition call_execute (currentNode : WorkflowNode) (inst : NodeInstance)
           (inputData : Ref) : M Machine (NodeExecuteResult' Ref) :=
  fun m =>
    let '(outcome, h', w') := execute inst inputData (heap m) (world (state m)) in
    (Finished outcome,
     {| state :=
          {| world := w';
             trace := trace (state m)
                        ++ [EvExecute currentNode
                                      (deref (heap m) inputData) (snapshot h' outcome)] |};
        heap := h' |}).

Definition createNodeInstance (eng : WorkflowEngine) (n : WorkflowNode)
           (wf : WorkflowDefinition) : M Machine NodeInstance :=
  match nodeRegistry eng !! node_type n with
  | None => throw (ErrorObj ("Unknown node type: " +:+ node_type n))
  | Some NodeClass_ =>
      let credentials := extractCredentials n wf in
      new NodeClass_ n credentials
  end.

(** The text a template literal gives for [result.error]. *)
Definition show_error (e : option string) : string := default "undefined" e.

(** [result.data || {}]: the bag of the result, or a new empty one. *)
Definition or_empty (result : NodeExecuteResult' Ref) (h : Heap) : Ref * Heap :=
  match res_data result with
  | Some data => (data, h)
  | None => (length h, h ++ [∅])
  end.

Definition data_or_empty (result : NodeExecuteResult' Ref) : M Machine Ref :=
  fun m =>
    (Finished (Normal (or_empty result (heap m)).1),
     {| state := state m; heap := (or_empty result (heap m)).2 |}).

Fixpoint executeNodeChain (fuel : nat) (eng : WorkflowEngine)
         (wf : WorkflowDefinition) (currentNode : WorkflowNode)
         (inputData : Ref) : M Machine Ref :=
  match fuel with
  | O => out_of_fuel
  | S fuel' =>
      nodeInstance ← createNodeInstance eng currentNode wf;
      result ← call_execute currentNode nodeInstance inputData;
      if negb (res_success result) then
        throw (ErrorObj ("Node execution failed: " +:+ show_error (res_error result)))
      else
        nextNodes ← pure_call (widen (getNextNodes wf (node_id currentNode)));
        if (length nextNodes =? 0)%nat then data_or_empty result
        else
          match nextNodes !! 0%nat with
          | None => data_or_empty result
          | Some nextNode =>
              data ← data_or_empty result;
              executeNodeChain fuel' eng wf nextNode data
          end
  end.

(** [return execution]: the record as its receiver reads it. *)
Definition returned (execution : WorkflowExecution' Ref) : M Machine WorkflowExecution :=
  data ← read (ex_data execution);
  mret {| ex_id := ex_id execution; ex_status := ex_status execution;
         ex_startTime := ex_startTime execution; ex_endTime := ex_endTime execution;
         ex_data := data; ex_error := ex_error execution |}.

(** An omitted [inputData] is the empty bag (the default parameter).  The
    bag of the caller is the first one of the store of the run. *)
Definition executeWorkflow (fuel : nat) (eng : WorkflowEngine)
           (wf : WorkflowDefinition) (inputData : WorkflowData)
  : M St WorkflowExecution :=
  with_store [inputData]
    (let inputData := 0%nat in
     t0 ← now;
     let execution :=
       {| ex_id := "exec_" +:+ pretty t0; ex_status := running;
          ex_startTime := t0; ex_endTime := None;
          ex_data := inputData; ex_error := None |} in
     try_catch
       (startNode ← match findStartNode wf with
                     | None => throw (ErrorObj "No start node found in workflow")
                     | Some n => mret n
                     end;
        result ← executeNodeChain fuel eng wf startNode inputData;
        t1 ← now;
        returned {| ex_id := ex_id execution; ex_status := success;
                    ex_startTime := ex_startTime execution; ex_endTime := Some t1;
                    ex_data := result; ex_error := ex_error execution |})
       (fun e =>
          t1 ← now;
          message ← pure_call (describe e);
          returned {| ex_id := ex_id execution; ex_status := error;
                      ex_startTime := ex_startTime execution; ex_endTime := Some t1;
                      ex_data := ex_data execution;
                      ex_error := Some message |})).

End Engine.
(** ** The built-in node types *)

(** [operation === 'name'] for a parameter value. *)
Definition is_string (v : JSValue) (s : string) : bool :=
  match v with
  | JStr t => String.eqb t s
  | _ => false
  end.

(** What [GoogleChatAgent.sendMessageToSpace] resolves to. *)
Record ChatResponse : Type := {
  chat_success : bool;
  chat_messageId : JSValue;
  chat_spaceId : JSValue;
  chat_error : option string;
}.

(** [result.error || 'Failed to send message'] *)
Definition error_or (e : option string) (fallback : string) : string :=
  match e with
  | Some m => if String.eqb m "" then fallback else m
  | None => fallback
  end.

#[global] Instance Completion_ret : MRet Completion := @Normal Thrown.
#[global] Instance Completion_bind : MBind Completion :=
  fun A B k c =>
    match c with
    | Normal a => k a
    | Throw e => Throw e
    end.

Section Nodes.
Context {World : Type}.

(** The collaborators the nodes delegate to: the text of a value that is no
    string, and the product [v * 1000], which both throw on an object that
    cannot be converted to a primitive value, such as [{toString: 1}];
    [process.cwd()], which throws when the working directory is gone;
    [path.basename], which throws when its argument is no string; the
    promisified [exec]; the agents' calls (loading the agent module and
    constructing the agent included); and what the Jira node does between
    its parameter check and its result: the request it builds, the HTTP
    exchange and the object it extracts from the response.  They are code of
    the repository and of the runtime: what they throw has a text.  The
    console is not part of the world, and writing to it does not throw. *)
Variable String_ : JSValue → Completion string.
Variable times1000 : JSValue → Completion JSValue.
Variable cwd : World → Completion JSValue.
Variable basename : JSValue → Completion string.
Variable execAsync :
  JSValue → JSValue → JSValue → World → Completion (JSValue * JSValue) * World.
Variable loadGoogleChatAgent : World → Completion unit * World.
Variable sendMessageToSpace :
  JSValue → JSValue → JSValue → World → Completion ChatResponse * World.
Variable loadGoogleDriveAgent : World → Completion unit * World.
Variable uploadFile :
  JSValue → JSValue → JSValue → World → Completion JSValue * World.
Variable fetchTicket :
  BaseNode → JSValue → JSValue → JSValue → World → Completion JSValue * World.
Variable fetchSearch :
  BaseNode → JSValue → JSValue → World → Completion (JSValue * JSValue) * World.

Definition Method : Type :=
  BaseNode → WorkflowData → World → Completion NodeExecuteResult * World.

(** The text of [v] in a template literal: a string is its own text. *)
Definition template (v : JSValue) : Completion string :=
  match v with
  | JStr s => Normal s
  | _ => String_ v
  end.

(** [throw new Error(`Unknown operation: ${operation}`)] *)
Definition unknown_operation {A} (operation : JSValue) : Completion A :=
  match template operation with
  | Normal text => Throw (ErrorObj ("Unknown operation: " +:+ text))
  | Throw e => Throw e
  end.

(** [try { body } catch (error) { return this.createErrorResult(message) }] *)
Definition catch_to_result
           (body : World → Completion NodeExecuteResult * World)
  : World → Completion NodeExecuteResult * World :=
  fun w =>
    match body w with
    | (Throw e, w') => (Normal (createErrorResult (error_message e)), w')
    | r => r
    end.

(** *** nodes/android/AndroidNode.ts *)
Definition AndroidNode_execute : Method := fun self inputData =>
  catch_to_result (fun w =>
    let command := getParameter self "command" JUndefined in
    match (let p := getParameter self "projectPath" JUndefined in
           if truthy p then Normal p else cwd w) with
    | Throw e => (Throw e, w)
    | Normal projectPath =>
        match times1000 (getParameter self "timeout" (JNum 300)) with
        | Throw e => (Throw e, w)
        | Normal timeout =>
            if negb (truthy command) then (Throw (ErrorObj "Command is required"), w)
            else
              match execAsync command projectPath timeout w with
              | (Throw e, w') => (Throw e, w')
              | (Normal (stdout, stderr), w') =>
                  let result :=
                    spread_after
                      {[ "command" := command; "projectPath" := projectPath;
                         "stdout" := stdout; "stderr" := stderr;
                         "success" := JBool true ]}
                      inputData in
                  (Normal (createSuccessResult result), w')
              end
        end
    end).

(** *** nodes/google/GoogleChatNode.ts *)
Definition GoogleChatNode_sendMessage : Method := fun self inputData w =>
  let spaceId := getParameter self "spaceId" JUndefined in
  let messageText := getParameter self "messageText" JUndefined in
  let threadId := getParameter self "threadId" JUndefined in
  if negb (truthy messageText) then
    (Throw (ErrorObj "Message text is required for sendMessage operation"), w)
  else
    (* the two lines logged first *)
    match template spaceId ≫= (fun _ => template messageText) with
    | Throw e => (Throw e, w)
    | Normal _ =>
        match sendMessageToSpace spaceId messageText threadId w with
        | (Throw e, w') => (Throw e, w')
        | (Normal result, w') =>
            if chat_success result then
              (Normal (createSuccessResult
                 (spread_after
                    {[ "operation" := JStr "sendMessage"; "success" := JBool true;
                       "messageId" := chat_messageId result;
                       "spaceId" := chat_spaceId result;
                       "messageText" := messageText; "threadId" := threadId ]}
                    inputData)), w')
            else
              (Normal (createErrorResult
                 (error_or (chat_error result) "Failed to send message")), w')
        end
    end.

Definition GoogleChatNode_execute : Method := fun self inputData =>
  catch_to_result (fun w =>
    match validateRequiredCredentials self ["googleChatServiceAccount"] with
    | Throw e => (Throw e, w)
    | Normal _ =>
        let operation := getParameter self "operation" (JStr "sendMessage") in
        let spaceId := getParameter self "spaceId" JUndefined in
        if negb (truthy spaceId) then (Throw (ErrorObj "Space ID is required"), w)
        else
          match loadGoogleChatAgent w with
          | (Throw e, w') => (Throw e, w')
          | (Normal _, w') =>
              if is_string operation "sendMessage" then
                GoogleChatNode_sendMessage self inputData w'
              else
                (unknown_operation operation, w')
          end
    end).

(** *** nodes/google/GoogleDriveNode.ts *)
Definition GoogleDriveNode_uploadFileWithAgent : Method := fun self inputData w =>
  let filePath := getParameter self "filePath" JUndefined in
  let fileName := getParameter self "fileName" JUndefined in
  let folderId := getParameter self "folderId" JUndefined in
  if negb (truthy filePath) then
    (Throw (ErrorObj "File path is required for upload operation"), w)
  else
    (* the two lines logged first: the text of
       [fileName || path.basename(filePath)], then the text of [filePath] *)
    match (if truthy fileName then template fileName else basename filePath)
            ≫= (fun _ => template filePath) with
    | Throw e => (Throw e, w)
    | Normal _ =>
        match uploadFile filePath folderId fileName w with
        | (Throw e, w') => (Throw e, w')
        | (Normal result, w') =>
            (Normal (createSuccessResult
               (spread_after
                  {[ "operation" := JStr "uploadFile"; "message" := result ]}
                  inputData)), w')
        end
    end.

Definition GoogleDriveNode_execute : Method := fun self inputData =>
  catch_to_result (fun w =>
    match validateRequiredCredentials self ["googleDriveServiceAccount"] with
    | Throw e => (Throw e, w)
    | Normal _ =>
        let operation := getParameter self "operation" (JStr "uploadFile") in
        match loadGoogleDriveAgent w with
        | (Throw e, w') => (Throw e, w')
        | (Normal _, w') =>
            if is_string operation "uploadFile" then
              GoogleDriveNode_uploadFileWithAgent self inputData w'
            else
              (unknown_operation operation, w')
        end
    end).

(** *** nodes/jira/JiraNode.ts *)
Definition JiraNode_getTicket : Method := fun self inputData w =>
  let ticketKey := getParameter self "ticketKey" JUndefined in
  let includeDescription := getParameter self "includeDescription" (JBool true) in
  let maxDescriptionLength := getParameter self "maxDescriptionLength" (JNum 200) in
  if negb (truthy ticketKey) then (Throw (ErrorObj "Ticket key is required"), w)
  else
    match fetchTicket self ticketKey includeDescription maxDescriptionLength w with
    | (Throw e, w') => (Throw e, w')
    | (Normal ticket, w') =>
        let result := spread_after {[ "ticket" := ticket ]} inputData in
        (Normal (createSuccessResult result), w')
    end.

Definition JiraNode_searchTickets : Method := fun self inputData w =>
  let searchQuery := getParameter self "searchQuery" JUndefined in
  let maxResults := getParameter self "maxResults" (JNum 10) in
  if negb (truthy searchQuery) then (Throw (ErrorObj "Search query is required"), w)
  else
    match fetchSearch self searchQuery maxResults w with
    | (Throw e, w') => (Throw e, w')
    | (Normal (tickets, total), w') =>
        (Normal (createSuccessResult
           (spread_after
              {[ "tickets" := tickets; "total" := total; "query" := searchQuery ]}
              inputData)), w')
    end.

Definition JiraNode_execute : Method := fun self inputData =>
  catch_to_result (fun w =>
    match validateRequiredCredentials self ["jiraApi"] with
    | Throw e => (Throw e, w)
    | Normal _ =>
        let operation := getParameter self "operation" (JStr "getTicket") in
        if is_string operation "getTicket" then JiraNode_getTicket self inputData w
        else if is_string operation "searchTickets" then
          JiraNode_searchTickets self inputData w
        else (unknown_operation operation, w)
    end).

(** A method of the repository as a node class, which has the constructor
    of [BaseNode]: the method reads the bag it is handed, changes no bag,
    and the data of its result is a new object. *)
Definition by_value (method : Method) : @NodeClass World :=
  {| construct := BaseNode_constructor;
     execute_method := fun self inputData h w =>
       match method self (deref h inputData) w with
       | (Normal result, w') =>
           match res_data result with
           | Some data =>
               (Normal {| res_success := res_success result;
                          res_data := Some (length h);
                          res_error := res_error result |}, h ++ [data], w')
           | None =>
               (Normal {| res_success := res_success result; res_data := None;
                          res_error := res_error result |}, h, w')
           end
       | (Throw e, w') => (Throw (Value e), h, w')
       end |}.

Definition AndroidNode : NodeClass := by_value AndroidNode_execute.
Definition GoogleChatNode : NodeClass := by_value GoogleChatNode_execute.
Definition GoogleDriveNode : NodeClass := by_value GoogleDriveNode_execute.
Definition JiraNode : NodeClass := by_value JiraNode_execute.

(** [new WorkflowEngine()]: the constructor registers the Jira node. *)
Definition WorkflowEngine_new : WorkflowEngine :=
  registerNode "jira" JiraNode {| nodeRegistry := ∅ |}.

End Nodes.

(** ** Workflow factories (workflows/) *)

(** An optional string argument or environment variable as a value. *)
Definition opt_str (o : option string) : JSValue :=
  match o with
  | Some t => JStr t
  | None => JUndefined
  end.

(** [a || fallback] for an optional string [a]: the empty string is falsy. *)
Definition str_or (o : option string) (fallback : string) : string :=
  match o with
  | Some t => if String.eqb t "" then fallback else t
  | None => fallback
  end.

(** The loop [nodes.forEach((node) => { connections[node.id] = []; })]. *)
Definition no_outgoing (ns : list WorkflowNode) : gmap string (list WorkflowConnection) :=
  foldl (fun conns n => <[node_id n := []]> conns) ∅ ns.

Record ChatMessage : Type := {
  msg_spaceId : string;
  msg_messageText : string;
  msg_threadId : option string;
}.

Record DriveFile : Type := {
  file_filePath : string;
  file_fileName : option string;
  file_folderId : option string;
}.

Section Factories.
(** [process.env] and [process.cwd()] at the time a factory is called. *)
Variable env : gmap string string.
Variable cwd_now : string.

(** workflows/android/android-workflow.ts *)
Definition createAndroidWorkflow (command : string) (projectPath : option string)
  : WorkflowDefinition :=
  {| wf_id := "android-command-workflow"; wf_name := "Execute Android Command";
     active := true; settings := ∅;
     nodes :=
       [ {| node_id := "android-node-1"; node_type := "android";
            node_name := "Execute Android Command";
            node_position := {| pos_x := 100; pos_y := 100 |};
            node_parameters :=
              {[ "command" := JStr command;
                 "projectPath" := JStr (str_or projectPath cwd_now);
                 "timeout" := JNum 1500 ]};
            node_credentials := None |} ];
     connections := {[ "android-node-1" := [] ]} |}.

(** workflows/google/google-chat-workflow.ts *)
Definition createGoogleChatMessageWorkflow (spaceId messageText : string)
           (threadId : option string) : WorkflowDefinition :=
  {| wf_id := "google-chat-message-workflow";
     wf_name := "Send Message to Google Chat Space";
     active := true; settings := ∅;
     nodes :=
       [ {| node_id := "google-chat-node-1"; node_type := "googleChat";
            node_name := "Send Chat Message";
            node_position := {| pos_x := 100; pos_y := 100 |};
            node_parameters :=
              {[ "operation" := JStr "sendMessage"; "spaceId" := JStr spaceId;
                 "messageText" := JStr messageText; "threadId" := opt_str threadId ]};
            node_credentials :=
              Some {[ "googleChatServiceAccount" :=
                        JObj [("serviceAccountPath",
                               JStr (str_or (env !! "GOOGLE_CHAT_SERVICE_ACCOUNT_PATH")
                                            "./drive-agent-service.json"))] ]} |} ];
     connections := {[ "google-chat-node-1" := [] ]} |}.

Definition chatBatchNode (index : nat) (message : ChatMessage) : WorkflowNode :=
  {| node_id := "google-chat-message-node-" +:+ pretty index;
     node_type := "googleChat";
     node_name := "Send Message " +:+ pretty (index + 1)%nat;
     node_position := {| pos_x := 100; pos_y := 100 + Z.of_nat index * 150 |};
     node_parameters :=
       {[ "operation" := JStr "sendMessage"; "spaceId" := JStr (msg_spaceId message);
          "messageText" := JStr (msg_messageText message);
          "threadId" := opt_str (msg_threadId message) ]};
     node_credentials :=
       Some {[ "googleChatServiceAccount" :=
                 JObj [("serviceAccountPath",
                        JStr (str_or (env !! "GOOGLE_SERVICE_ACCOUNT_PATH")
                                     "./service.json"))] ]} |}.

Definition createGoogleChatBatchMessageWorkflow (messages : list ChatMessage)
  : WorkflowDefinition :=
  let nodes_ := imap chatBatchNode messages in
  {| wf_id := "google-chat-batch-message-workflow";
     wf_name := "Batch Send Messages to Google Chat";
     active := true;
     settings := {[ "batchSize" := JNum (Z.of_nat (length messages));
                    "parallelMessages" := JBool true ]};
     nodes := nodes_;
     connections := no_outgoing nodes_ |}.

Definition chatThreadedNode (spaceId threadId : string) (index : nat)
           (message : string) : WorkflowNode :=
  {| node_id := "google-chat-threaded-node-" +:+ pretty index;
     node_type := "googleChat";
     node_name := "Threaded Message " +:+ pretty (index + 1)%nat;
     node_position := {| pos_x := 100; pos_y := 100 + Z.of_nat index * 150 |};
     node_parameters :=
       {[ "operation" := JStr "sendMessage"; "spaceId" := JStr spaceId;
          "messageText" := JStr message; "threadId" := JStr threadId ]};
     node_credentials :=
       Some {[ "googleChatServiceAccount" :=
                 JObj [("serviceAccountPath",
                        JStr (str_or (env !! "GOOGLE_SERVICE_ACCOUNT_PATH")
                                     "./service.json"))] ]} |}.

Definition createGoogleChatThreadedMessageWorkflow (spaceId threadId : string)
           (messages : list string) : WorkflowDefinition :=
  let nodes_ := imap (chatThreadedNode spaceId threadId) messages in
  {| wf_id := "google-chat-threaded-message-workflow";
     wf_name := "Send Threaded Messages to Google Chat";
     active := true;
     settings := {[ "threadId" := JStr threadId;
                    "messageCount" := JNum (Z.of_nat (length messages)) ]};
     nodes := nodes_;
     connections := no_outgoing nodes_ |}.

(** workflows/jira/jira-workflow.ts *)
Definition createJiraWorkflow (ticketKey : string) : WorkflowDefinition :=
  {| wf_id := "jira-fetch-workflow"; wf_name := "Fetch Jira Ticket";
     active := true; settings := ∅;
     nodes :=
       [ {| node_id := "jira-node-1"; node_type := "jira";
            node_name := "Fetch Jira Ticket";
            node_position := {| pos_x := 100; pos_y := 100 |};
            node_parameters :=
              {[ "operation" := JStr "getTicket"; "ticketKey" := JStr ticketKey;
                 "includeDescription" := JBool true;
                 "maxDescriptionLength" := JNum 200 ]};
            node_credentials :=
              Some {[ "jiraApi" :=
                        JObj [("domain", opt_str (env !! "JIRA_DOMAIN"));
                              ("email", opt_str (env !! "JIRA_EMAIL"));
                              ("apiToken", opt_str (env !! "JIRA_API_TOKEN"))] ]} |} ];
     connections := {[ "jira-node-1" := [] ]} |}.

(** workflows/google/google-drive-workflow.ts *)
Definition driveServiceAccount : gmap string JSValue :=
  {[ "googleDriveServiceAccount" :=
       JObj [("serviceAccountPath",
              JStr (str_or (env !! "GOOGLE_SERVICE_ACCOUNT_PATH")
                           "./drive-agent-service.json"));
             ("folderId", opt_str (env !! "GOOGLE_DRIVE_FOLDER_ID"))] ]}.

Definition createGoogleDriveUploadWorkflow (filePath : string)
           (folderId fileName : option string) : WorkflowDefinition :=
  {| wf_id := "google-drive-upload-workflow";
     wf_name := "Upload File to Google Drive";
     active := true; settings := ∅;
     nodes :=
       [ {| node_id := "google-drive-node-1"; node_type := "googleDrive";
            node_name := "Upload to Google Drive";
            node_position := {| pos_x := 100; pos_y := 100 |};
            node_parameters :=
              {[ "operation" := JStr "uploadFile"; "filePath" := JStr filePath;
                 "fileName" := opt_str fileName; "folderId" := opt_str folderId;
                 "enableProgress" := JBool true ]};
            node_credentials := Some driveServiceAccount |} ];
     connections := {[ "google-drive-node-1" := [] ]} |}.

(** An omitted [pageSize] is 10 (the default parameter). *)
Definition createGoogleDriveListWorkflow (folderId : option string)
           (pageSize : option Z) : WorkflowDefinition :=
  {| wf_id := "google-drive-list-workflow"; wf_name := "List Google Drive Files";
     active := true; settings := ∅;
     nodes :=
       [ {| node_id := "google-drive-node-1"; node_type := "googleDrive";
            node_name := "List Files";
            node_position := {| pos_x := 100; pos_y := 100 |};
            node_parameters :=
              {[ "operation" := JStr "listFiles"; "folderId" := opt_str folderId;
                 "pageSize" := JNum (default 10 pageSize) ]};
            node_credentials := Some driveServiceAccount |} ];
     connections := {[ "google-drive-node-1" := [] ]} |}.

Definition createGoogleDriveLargeFileUploadWorkflow (filePath : string)
           (folderId fileName : option string) : WorkflowDefinition :=
  {| wf_id := "google-drive-large-file-upload-workflow";
     wf_name := "Upload Large File to Google Drive with Progress";
     active := true;
     settings := {[ "enableProgressTracking" := JBool true;
                    "chunkSize" := JNum (8 * 1024 * 1024);
                    "maxRetries" := JNum 3 ]};
     nodes :=
       [ {| node_id := "google-drive-upload-node"; node_type := "googleDrive";
            node_name := "Upload Large File";
            node_position := {| pos_x := 100; pos_y := 100 |};
            node_parameters :=
              {[ "operation" := JStr "uploadFile"; "filePath" := JStr filePath;
                 "fileName" := opt_str fileName; "folderId" := opt_str folderId;
                 "enableProgress" := JBool true ]};
            node_credentials := Some driveServiceAccount |} ];
     connections := {[ "google-drive-upload-node" := [] ]} |}.

Definition driveBatchNode (index : nat) (file : DriveFile) : WorkflowNode :=
  {| node_id := "google-drive-upload-node-" +:+ pretty index;
     node_type := "googleDrive";
     node_name := "Upload " +:+ str_or (file_fileName file) "File" +:+ " "
                            +:+ pretty (index + 1)%nat;
     node_position := {| pos_x := 100; pos_y := 100 + Z.of_nat index * 150 |};
     node_parameters :=
       {[ "operation" := JStr "uploadFile"; "filePath" := JStr (file_filePath file);
          "fileName" := opt_str (file_fileName file);
          "folderId" := opt_str (file_folderId file);
          "enableProgress" := JBool true ]};
     node_credentials :=
       Some {[ "googleDriveApi" :=
                 JObj [("accessToken", opt_str (env !! "GOOGLE_DRIVE_ACCESS_TOKEN"))] ]} |}.

Definition createGoogleDriveBatchUploadWorkflow (files : list DriveFile)
  : WorkflowDefinition :=
  let nodes_ := imap driveBatchNode files in
  {| wf_id := "google-drive-batch-upload-workflow";
     wf_name := "Batch Upload Files to Google Drive";
     active := true;
     settings := {[ "batchSize" := JNum (Z.of_nat (length files));
                    "enableProgressTracking" := JBool true;
                    "parallelUploads" := JBool true ]};
     nodes := nodes_;
     connections := no_outgoing nodes_ |}.

End Factories.

(** ** agents/jira/JiraAgent.ts: the caller of the engine *)

(** The value of a key of an object value; of two bindings the later one
    stands, and a key without binding reads as in [js_get]. *)
Definition obj_get (fields : list (string * JSValue)) (k : string) : JSValue :=
  foldl (fun found kv => if String.eqb kv.1 k then kv.2 else found)
        (if inherited k then JInherited k else JUndefined) fields.

Section JiraAgent.
Context {World : Type}.
Variable clock : World → Z.
Variable String_ : JSValue → Completion string.
Variable fetchTicket :
  BaseNode → JSValue → JSValue → JSValue → World → Completion JSValue * World.
Variable fetchSearch :
  BaseNode → JSValue → JSValue → World → Completion (JSValue * JSValue) * World.
Variable env : gmap string string.
(** The message of the [TypeError] that reading a property of [undefined] or
    [null] throws. *)
Variable TypeError_message : JSValue → string → string.

(** [ticket.name], for the names read below: they are properties of no
    primitive value, of no array and of no function. *)
Definition js_prop (v : JSValue) (k : string) : Completion JSValue :=
  match v with
  | JUndefined | JNull => Throw (ErrorObj (TypeError_message v k))
  | JObj fields => Normal (obj_get fields k)
  | _ => Normal JUndefined
  end.

(** [${ticket.name}]: the property is read, then its text is asked for. *)
Definition field (ticket : JSValue) (name : string) : Completion string :=
  js_prop ticket name ≫= template String_.

(** The template literal of [fetchSingleTicket], its substitutions
    evaluated from left to right. *)
Definition ticketSummary (ticket : JSValue) : Completion string :=
  key ← field ticket "key";
  summary ← field ticket "summary";
  status ← field ticket "status";
  type ← field ticket "type";
  priority ← field ticket "priority";
  assignee ← field ticket "assignee";
  description ← field ticket "description";
  url ← field ticket "url";
  mret ("**Jira Ticket Summary**
              **Ticket:** " +:+ key +:+ "
              **Title:** " +:+ summary +:+ "
              **Status:** " +:+ status +:+ "
              **Type:** " +:+ type +:+ "
              **Priority:** " +:+ priority +:+ "
              **Assignee:** " +:+ assignee +:+ "
              **Description:** " +:+ description +:+ "
              **Jira Link:** " +:+ url).

(** [this.workflowEngine], built by the constructor of the agent. *)
Definition JiraAgent_workflowEngine : @WorkflowEngine World :=
  WorkflowEngine_new String_ fetchTicket fetchSearch.

Definition fetchSingleTicket (fuel : nat) (ticketKey : string) : M St string :=
  try_catch
    (let workflow := createJiraWorkflow env ticketKey in
     execution ← executeWorkflow clock fuel JiraAgent_workflowEngine workflow ∅;
     match ex_status execution with
     | error =>
         mret ("Error executing Jira workflow: " +:+ show_error (ex_error execution))
     | _ =>
         let ticket := js_get (ex_data execution) "ticket" in
         pure_call (widen (ticketSummary ticket))
     end)
    (fun e =>
       errorMessage ← pure_call (describe e);
       mret ("Error fetching ticket: " +:+ errorMessage)).

End JiraAgent.

(** ** Scenarios *)

Module Scenario.
Section Workflows.
Context {World : Type}.

(** A node type that returns its input unchanged:
    [return { success: true, data: inputData }]. *)
Definition EchoNode : @NodeClass World :=
  {| construct := BaseNode_constructor;
     execute_method := fun _ inputData h w =>
       (Normal (createSuccessResult inputData), h, w) |}.

(** A node type that reports the failure "boom". *)
Definition BoomNode : @NodeClass World :=
  {| construct := BaseNode_constructor;
     execute_method := fun _ _ h w => (Normal (createErrorResult "boom"), h, w) |}.

(** A node type that removes [x] from the bag it is handed, sets [y] to 2
    in it, and reports the failure "boom":
    [delete inputData.x; inputData.y = 2; return { success: false, error: 'boom' }]. *)
Definition ScribbleNode : @NodeClass World :=
  {| construct := BaseNode_constructor;
     execute_method := fun _ inputData h w =>
       (Normal (createErrorResult "boom"),
        <[inputData := <["y" := JNum 2]> (delete "x" (deref h inputData))]> h, w) |}.

(** A node type that throws an object without prototype,
    [throw Object.create(null)]: [String] cannot convert it and throws a
    [TypeError] with this message. *)
Definition cannot_convert : string := "Cannot convert object to primitive value".
Definition OpaqueNode : @NodeClass World :=
  {| construct := BaseNode_constructor;
     execute_method := fun _ _ h w =>
       (Throw (Inconvertible (ErrorObj cannot_convert)), h, w) |}.

(** A node type whose constructor refuses a node without credentials, and
    whose [execute] returns its input:
    [constructor(node, credentials) { super(node, credentials);
       if (!node.credentials) throw new Error('no credentials'); }]. *)
Definition PickyNode : @NodeClass World :=
  {| construct := fun n creds w =>
       match node_credentials n with
       | Some _ => BaseNode_constructor n creds w
       | None => (Throw (Value (ErrorObj "no credentials")), w)
       end;
     execute_method := fun _ inputData h w =>
       (Normal (createSuccessResult inputData), h, w) |}.

Definition blank (i t : string) : WorkflowNode :=
  {| node_id := i; node_type := t; node_name := i;
     node_position := {| pos_x := 0; pos_y := 0 |};
     node_parameters := ∅; node_credentials := None |}.

Definition workflow (ns : list WorkflowNode)
           (cs : gmap string (list WorkflowConnection)) : WorkflowDefinition :=
  {| wf_id := "wf"; wf_name := "wf"; nodes := ns; connections := cs;
     active := true; settings := ∅ |}.

Definition to (i : string) : WorkflowConnection :=
  {| conn_node := i; conn_type := "main"; conn_index := 0 |}.

Definition engine : @WorkflowEngine World :=
  registerNode "boom" BoomNode
    (registerNode "echo" EchoNode {| nodeRegistry := ∅ |}).

(** The same engine with the three node types above registered as well. *)
Definition open_engine : @WorkflowEngine World :=
  registerNode "picky" PickyNode
    (registerNode "opaque" OpaqueNode (registerNode "scribble" ScribbleNode engine)).

(** [{nodes: [{id: "n1", type: "echo"}]}], no connections. *)
Definition single : WorkflowDefinition := workflow [blank "n1" "echo"] ∅.

(** n1 → n2, where n1 fails. *)
Definition boom_then_echo : WorkflowDefinition :=
  workflow [blank "n1" "boom"; blank "n2" "echo"] {[ "n1" := [to "n2"] ]}.

(** One node connected to itself, and no node at all. *)
Definition self_loop : WorkflowDefinition :=
  workflow [blank "n1" "echo"] {[ "n1" := [to "n1"] ]}.
Definition no_nodes : WorkflowDefinition := workflow [] ∅.

(** A → B, A → C, B → C. *)
Definition diamond : WorkflowDefinition :=
  workflow [blank "A" "echo"; blank "B" "echo"; blank "C" "echo"]
           {[ "A" := [to "B"; to "C"]; "B" := [to "C"] ]}.

(** A → ghost, A → B, where no node is called ghost. *)
Definition dangling : WorkflowDefinition :=
  workflow [blank "A" "echo"; blank "B" "echo"]
           {[ "A" := [to "ghost"; to "B"] ]}.





(** n1 → n2 where the constructor of the type of n2 throws. *)
Definition echo_then_picky : WorkflowDefinition :=
  workflow [blank "n1" "echo"; blank "n2" "picky"] {[ "n1" := [to "n2"] ]}.

(** n1 → toString where the second node, called toString, has no entry of
    its own in the connections map; and n1 → n2 → n3 with a node type that
    is not registered at the end. *)
Definition inherited_id : WorkflowDefinition :=
  workflow [blank "n1" "echo"; blank "toString" "echo"] {[ "n1" := [to "toString"] ]}.
End Workflows.

(** The scenarios are run in a world without state, from an empty trace, on
    an empty input; the walker alone is run on a store that holds that
    empty bag only. *)
Definition s0 : @St unit := {| world := tt; trace := [] |}.
Definition m0 : @Machine unit := {| state := s0; heap := [∅] |}.
Definition clock0 : unit → Z := fun _ => 0.
Definition run (fuel : nat) (wf : WorkflowDefinition) : Run WorkflowExecution * St :=
  executeWorkflow clock0 fuel engine wf ∅ s0.
Definition walk (fuel : nat) (wf : WorkflowDefinition) (start : WorkflowNode)
  : Run nat * Machine :=
  executeNodeChain fuel engine wf start 0%nat m0.

Definition n1 : WorkflowNode := blank "n1" "echo".
Definition failing : WorkflowNode := blank "n1" "boom".
Definition nA : WorkflowNode := blank "A" "echo".
Definition nB : WorkflowNode := blank "B" "echo".
Definition nC : WorkflowNode := blank "C" "echo".

(** An Android node for [yarn build], run on the data a previous Android
    node for [yarn lint] has left; the shell prints "BUILD SUCCESSFUL". *)
Definition shell
  : JSValue → JSValue → JSValue → unit → Completion (JSValue * JSValue) * unit :=
  fun _ _ _ w => (Normal (JStr "BUILD SUCCESSFUL", JStr ""), w).
(** [v * 1000] on the numbers the scenarios multiply; this shell multiplies
    nothing else. *)
Definition seconds_to_ms (v : JSValue) : Completion JSValue :=
  match v with
  | JNum n => Normal (JNum (n * 1000))
  | _ => Throw (ErrorObj "Cannot convert object to primitive value")
  end.
Definition home : unit → Completion JSValue := fun _ => Normal (JStr "/app").
Definition android_build : BaseNode :=
  {| this_node :=
       {| node_id := "android-node-2"; node_type := "android";
          node_name := "Execute Android Command";
          node_position := {| pos_x := 100; pos_y := 250 |};
          node_parameters := {[ "command" := JStr "yarn build" ]};
          node_credentials := None |};
     this_credentials := ∅ |}.
Definition previous_output : WorkflowData :=
  {[ "command" := JStr "yarn lint"; "stdout" := JStr "lint ok" ]}.
Definition build_output : WorkflowData :=
  {[ "command" := JStr "yarn lint"; "projectPath" := JStr "/app";
     "stdout" := JStr "lint ok"; "stderr" := JStr ""; "success" := JBool true ]}.

(** A Jira node constructed without credentials. *)
Definition jira_without_credentials : BaseNode :=
  {| this_node := blank "jira-node-1" "jira"; this_credentials := ∅ |}.
End Scenario.

(** ** Fixtures for the further properties *)

Module Fixtures.

(** A world without state in which the Jira server cannot be reached, the
    agents load, an upload answers "uploaded" and a message is refused. *)
Definition no_text : JSValue → Completion string := fun _ => Normal "".
Definition offline_ticket
  : BaseNode → JSValue → JSValue → JSValue → unit → Completion JSValue * unit :=
  fun _ _ _ _ w => (Throw (ErrorObj "offline"), w).
Definition offline_search
  : BaseNode → JSValue → JSValue → unit → Completion (JSValue * JSValue) * unit :=
  fun _ _ _ w => (Throw (ErrorObj "offline"), w).
Definition agent_ready : unit → Completion unit * unit := fun w => (Normal tt, w).
Definition last_part : JSValue → Completion string := fun _ => Normal "report.pdf".
Definition upload_ok
  : JSValue → JSValue → JSValue → unit → Completion JSValue * unit :=
  fun _ _ _ w => (Normal (JStr "uploaded"), w).
Definition send_refused
  : JSValue → JSValue → JSValue → unit → Completion ChatResponse * unit :=
  fun _ _ _ w =>
    (Normal {| chat_success := false; chat_messageId := JUndefined;
               chat_spaceId := JUndefined; chat_error := None |}, w).

Definition default_engine : @WorkflowEngine unit :=
  WorkflowEngine_new no_text offline_ticket offline_search.

Definition drive_engine : @WorkflowEngine unit :=
  registerNode "googleDrive" (GoogleDriveNode no_text last_part agent_ready upload_ok)
               {| nodeRegistry := ∅ |}.

Definition report : DriveFile :=
  {| file_filePath := "/tmp/report.pdf"; file_fileName := None;
     file_folderId := None |}.

Definition x1 : WorkflowData := {[ "x" := JNum 1 ]}.

(** The Jira workflow for PROJ-1 on the engine of the agents. *)
Definition jira_run : Run WorkflowExecution * St :=
  executeWorkflow Scenario.clock0 1 default_engine (createJiraWorkflow ∅ "PROJ-1")
                  x1 Scenario.s0.

End Fixtures.
(** ** Notions the properties are stated with *)

(** The record a run starts from, and its two final forms. *)
Definition failed_execution (t0 t1 : Z) (inputData : WorkflowData) (msg : string)
  : WorkflowExecution :=
  {| ex_id := "exec_" +:+ pretty t0; ex_status := error; ex_startTime := t0;
     ex_endTime := Some t1; ex_data := inputData; ex_error := Some msg |}.

Definition successful_execution (t0 t1 : Z) (result : WorkflowData)
  : WorkflowExecution :=
  {| ex_id := "exec_" +:+ pretty t0; ex_status := success; ex_startTime := t0;
     ex_endTime := Some t1; ex_data := result; ex_error := None |}.

(** The nodes instantiated, and the nodes executed, in a piece of trace. *)
Definition instantiated (tr : list Event) : list WorkflowNode :=
  omap (fun ev => match ev with EvNew n _ => Some n | _ => None end) tr.

Definition executed (tr : list Event) : list WorkflowNode :=
  omap (fun ev => match ev with EvExecute n _ _ => Some n | _ => None end) tr.

(** The node a connection names: the first node of the definition with that
    id, if any. *)
Definition resolve (wf : WorkflowDefinition) (c : WorkflowConnection)
  : option WorkflowNode :=
  find (fun n => bool_decide (node_id n = conn_node c)) (nodes wf).

(** The first declared target of [a] that names an existing node. *)
Definition first_resolved (wf : WorkflowDefinition) (a : WorkflowNode)
  : option WorkflowNode :=
  head (omap (resolve wf) (default [] (connections wf !! node_id a))).

(** The connection the walker follows out of [a]. *)
Definition followed (wf : WorkflowDefinition) (a b : WorkflowNode) : Prop :=
  ∃ others, getNextNodes wf (node_id a) = Normal (b :: others).

(** The connection graph on the ids of the nodes of the definition. *)
Definition is_node_id (wf : WorkflowDefinition) (i : string) : Prop :=
  ∃ n, n ∈ nodes wf ∧ node_id n = i.

Definition edge (wf : WorkflowDefinition) (a b : string) : Prop :=
  is_node_id wf a ∧ is_node_id wf b ∧
  ∃ conns c, connections wf !! a = Some conns ∧ c ∈ conns ∧ conn_node c = b.

(** A cycle among the nodes reachable from [start]. *)
Definition reachable_cycle (wf : WorkflowDefinition) (start : WorkflowNode) : Prop :=
  ∃ x, rtc (edge wf) (node_id start) x ∧ tc (edge wf) x x.


(** The result data is a shallow merge of the input data with an own output
    over [keys] in which, on every key of the input data, the value of the
    input data stands. *)
Definition merged_input_first (inputData : WorkflowData) (keys : gset string)
           (result : NodeExecuteResult) : Prop :=
  ∃ (own data : gmap string JSValue),
    dom own = keys ∧
    res_data result = Some data ∧
    ∀ k, data !! k = match inputData !! k with
                     | Some v => Some v
                     | None => own !! k
                     end.

(** The keys each node type writes itself on success. *)
Definition AndroidNode_keys : gset string :=
  {[ "command"; "projectPath"; "stdout"; "stderr"; "success" ]}.
Definition GoogleChatNode_keys : gset string :=
  {[ "operation"; "success"; "messageId"; "spaceId"; "messageText"; "threadId" ]}.
Definition GoogleDriveNode_keys : gset string := {[ "operation"; "message" ]}.
Definition JiraNode_getTicket_keys : gset string := {[ "ticket" ]}.
Definition JiraNode_searchTickets_keys : gset string :=
  {[ "tickets"; "total"; "query" ]}.

(** The credential names each [getDefinition()] declares. *)
Definition JiraNode_credentials : list string := ["jiraApi"].
Definition GoogleChatNode_credentials : list string := ["googleChatServiceAccount"].
Definition GoogleDriveNode_credentials : list string := ["googleDriveServiceAccount"].

(** The text of the error for a credential that is not there. *)
Definition missing_credential (cred : string) : string :=
  "Required credential '" +:+ cred +:+ "' is missing".

(** The bag [o] reads as truthy under [k]: by a truthy value of its own, or,
    when it sets none, by what it inherits. *)
Definition has_truthy (o : gmap string JSValue) (k : string) : Prop :=
  (∃ v, o !! k = Some v ∧ truthy v = true) ∨ (o !! k = None ∧ inherited k = true).

(** [text] occurs in [msg]. *)
Definition contains (msg text : string) : Prop :=
  ∃ before after, msg = before +:+ text +:+ after.

(** A definition in which no node has an outgoing connection. *)
Definition no_connections (wf : WorkflowDefinition) : Prop :=
  ∀ k conns, connections wf !! k = Some conns → conns = [].

(** The [execute] calls of a piece of trace: node, input data, outcome. *)
Definition executions (tr : list Event)
  : list (WorkflowNode * WorkflowData * Outcome NodeExecuteResult) :=
  omap (fun ev => match ev with
                  | EvExecute n given outcome => Some (n, given, outcome)
                  | _ => None
                  end) tr.

(** A success carries data and no error, a failure an error and no data. *)
Definition well_formed_result (result : NodeExecuteResult) : Prop :=
  if res_success result
  then is_Some (res_data result) ∧ res_error result = None
  else res_data result = None ∧ is_Some (res_error result).


(** The node the walker turns to after the events [tr] of a walk from
    [start]: [start] itself when nothing has happened yet, and else the first
    resolvable target of the node that has just succeeded. *)
Definition next_up (wf : WorkflowDefinition) (start : WorkflowNode) (tr : list Event)
           (n : WorkflowNode) : Prop :=
  (tr = [] ∧ n = start) ∨
  ∃ m given result,
    last tr = Some (EvExecute m given (Normal result)) ∧
    res_success result = true ∧ first_resolved wf m = Some n.

(** The event of a call into a node class, its constructor or its
    [execute], that threw [e]. *)
Definition threw (ev : Event) (e : Exception) : Prop :=
  match ev with
  | EvNewThrew _ _ e' => e' = e
  | EvExecute _ _ (Throw e') => e' = e
  | _ => False
  end.

(** The run ends in a record with status [error] and this message. *)
Definition reports (r : Run WorkflowExecution) (message : string) : Prop :=
  ∃ exec, r = Finished (Normal exec) ∧ ex_status exec = error ∧
          ex_error exec = Some message.

(** What [executeWorkflow] makes of the way the walk from the start node
    ended. *)
Definition reported (walk : Run WorkflowData) (r : Run WorkflowExecution) : Prop :=
  match walk with
  | Unfinished => r = Unfinished
  | Finished (Normal result) =>
      ∃ t0 t1, r = Finished (Normal (successful_execution t0 t1 result))
  | Finished (Throw e) =>
      match describe e with
      | Normal message =>
          ∃ t0 t1 data, r = Finished (Normal (failed_execution t0 t1 data message))
      | Throw e' => r = Finished (Throw e')
      end
  end.

(** ** The shape of a run of the chain walker *)

Section Runs.
Context {World : Type}.
Variable eng : @WorkflowEngine World.
Variable wf : WorkflowDefinition.

(** A node type whose constructor and [execute] never throw, one whose
    successes hand the input data on unchanged under whatever they add, and
    one that changes no bag that is already in the store. *)
Definition never_throws (cls : @NodeClass World) : Prop :=
  (∀ n creds w, ∃ this w', construct cls n creds w = (Normal this, w')) ∧
  ∀ self input h w, ∃ result h' w',
    execute_method cls self input h w = (Normal result, h', w') ∧
    well_formed_result (seen h' result).

Definition passes_input_through (cls : @NodeClass World) : Prop :=
  ∀ self input h w result h' w',
    execute_method cls self input h w = (Normal result, h', w') →
    res_success result = true →
    ∃ data, res_data result = Some data ∧ deref h input ⊆ deref h' data.

Definition keeps_the_store (cls : @NodeClass World) : Prop :=
  ∀ self input h w outcome h' w',
    execute_method cls self input h w = (outcome, h', w') →
    ∀ r content, h !! r = Some content → h' !! r = Some content.

(** [new_throws cls n e]: the constructor of [cls], called on node [n] and
    the credentials of its own definition, throws [e]. *)
Definition new_throws (cls : @NodeClass World) (n : WorkflowNode) (e : Exception)
  : Prop :=
  ∃ w w', construct cls n (default ∅ (node_credentials n)) w = (Throw e, w').

(** [calls cls n input outcome]: the constructor of [cls], called on node
    [n] and the credentials of its own definition, gives an instance, and
    the [execute] of [cls] on that instance, called next on a bag that holds
    [input], gives [outcome]. *)
Definition calls (cls : @NodeClass World) (n : WorkflowNode) (input : WorkflowData)
           (outcome : Outcome NodeExecuteResult) : Prop :=
  ∃ w0 this r h w o h' w',
    construct cls n (default ∅ (node_credentials n)) w0 = (Normal this, w) ∧
    deref h r = input ∧
    execute_method cls this r h w = (o, h', w') ∧
    outcome = snapshot h' o.

(** [chain_run n input r tr]: a call of [executeNodeChain] on node [n] with
    a bag that holds [input] may end as [r], the content of the bag it
    returns, after adding the events [tr] to the trace. *)
Inductive chain_run
  : WorkflowNode → WorkflowData → Run WorkflowData → list Event → Prop :=
| run_pending n input :
    chain_run n input Unfinished []
| run_unknown n input :
    nodeRegistry eng !! node_type n = None →
    chain_run n input
      (Finished (Throw (ErrorObj ("Unknown node type: " +:+ node_type n)))) []
| run_unbuilt n input cls e :
    nodeRegistry eng !! node_type n = Some cls →
    new_throws cls n e →
    chain_run n input (Finished (Throw e)) [EvNewThrew n (extractCredentials n wf) e]
| run_thrown n input cls e :
    nodeRegistry eng !! node_type n = Some cls →
    calls cls n input (Throw e) →
    chain_run n input (Finished (Throw e))
      [EvNew n (extractCredentials n wf); EvExecute n input (Throw e)]
| run_failed n input cls result :
    nodeRegistry eng !! node_type n = Some cls →
    calls cls n input (Normal result) →
    res_success result = false →
    chain_run n input
      (Finished (Throw (ErrorObj ("Node execution failed: "
                                    +:+ show_error (res_error result)))))
      [EvNew n (extractCredentials n wf); EvExecute n input (Normal result)]
| run_blocked n input cls result e :
    nodeRegistry eng !! node_type n = Some cls →
    calls cls n input (Normal result) →
    res_success result = true →
    getNextNodes wf (node_id n) = Throw e →
    chain_run n input (Finished (Throw e))
      [EvNew n (extractCredentials n wf); EvExecute n input (Normal result)]
| run_end n input cls result :
    nodeRegistry eng !! node_type n = Some cls →
    calls cls n input (Normal result) →
    res_success result = true →
    getNextNodes wf (node_id n) = Normal [] →
    chain_run n input (Finished (Normal (default ∅ (res_data result))))
      [EvNew n (extractCredentials n wf); EvExecute n input (Normal result)]
| run_step n input cls result nextNode others r tr :
    nodeRegistry eng !! node_type n = Some cls →
    calls cls n input (Normal result) →
    res_success result = true →
    getNextNodes wf (node_id n) = Normal (nextNode :: others) →
    chain_run nextNode (default ∅ (res_data result)) r tr →
    chain_run n input r
      (EvNew n (extractCredentials n wf) :: EvExecute n input (Normal result) :: tr).

(** What the walker returns, shown by content. *)
Definition shown (out : Run nat * @Machine World) : Run WorkflowData :=
  match out.1 with
  | Finished (Normal r) => Finished (Normal (deref (heap out.2) r))
  | Finished (Throw e) => Finished (Throw e)
  | Unfinished => Unfinished
  end.
End Runs.

(** * Properties *)

(** ** The [Map] *)

Lemma JSMap_eq {V} (m1 m2 : JSMap V) : map_entries m1 = map_entries m2 → m1 = m2.
Proof.
  destruct m1 as [l1 H1], m2 as [l2 H2]. simpl. intros ->.
  f_equal. apply proof_irrel.
Qed.

Lemma Map_lookup_empty {V} (k : string) : (∅ : JSMap V) !! k = None.
Proof. done. Qed.

Lemma get_set_entry {V} (k k' : string) (v : V) entries :
  get_entry k' (set_entry k v entries)
  = if decide (k' = k) then Some v else get_entry k' entries.
Proof.
  induction entries as [|[k0 v0] rest IH]; simpl.
  - destruct (decide (k = k')), (decide (k' = k)); congruence.
  - destruct (decide (k0 = k)) as [->|Hne]; simpl.
    + destruct (decide (k = k')), (decide (k' = k)); congruence.
    + destruct (decide (k0 = k')) as [->|?]; [|done].
      by destruct (decide (k' = k)).
Qed.

Lemma Map_lookup_set {V} (k k' : string) (v : V) (m : JSMap V) :
  <[k := v]> m !! k' = if decide (k' = k) then Some v else m !! k'.
Proof. apply get_set_entry. Qed.

Lemma Map_lookup_set_eq {V} (k : string) (v : V) (m : JSMap V) :
  <[k := v]> m !! k = Some v.
Proof. rewrite Map_lookup_set. by destruct (decide (k = k)). Qed.

Lemma Map_lookup_set_ne {V} (k k' : string) (v : V) (m : JSMap V) :
  k' ≠ k → <[k := v]> m !! k' = m !! k'.
Proof. intros ?. rewrite Map_lookup_set. by destruct (decide (k' = k)). Qed.

Lemma Map_lookup_set_Some {V} (k k' : string) (v v' : V) (m : JSMap V) :
  <[k := v]> m !! k' = Some v' ↔ (k' = k ∧ v' = v) ∨ (k' ≠ k ∧ m !! k' = Some v').
Proof.
  rewrite Map_lookup_set. destruct (decide (k' = k)); split.
  - intros [= ->]. by left.
  - by intros [[_ ->]|[? _]].
  - intros ?. by right.
  - by intros [[? _]|[_ ?]].
Qed.

(** A key that is there keeps its place, a new key comes last. *)
Lemma keys_set_entry {V} (k : string) (v : V) entries :
  (set_entry k v entries).*1
  = if decide (k ∈ entries.*1) then entries.*1 else entries.*1 ++ [k].
Proof.
  induction entries as [|[k0 v0] rest IH]; simpl set_entry.
  - destruct (decide _) as [Hin|]; [by apply elem_of_nil in Hin | done].
  - destruct (decide (k0 = k)) as [->|Hne]; rewrite !fmap_cons; simpl fst.
    + destruct (decide (k ∈ k :: rest.*1)) as [|Hnot]; [done|].
      destruct Hnot. by left.
    + rewrite IH. clear IH.
      destruct (decide (k ∈ rest.*1)) as [Hin|Hnot],
               (decide (k ∈ k0 :: rest.*1)) as [Hin'|Hnot']; try done.
      * destruct Hnot'. by right.
      * apply elem_of_cons in Hin' as [?|?]; by subst.
Qed.

Lemma Map_keys_set {V} (k : string) (v : V) (m : JSMap V) :
  Map_keys (<[k := v]> m)
  = if decide (k ∈ Map_keys m) then Map_keys m else Map_keys m ++ [k].
Proof. apply keys_set_entry. Qed.

Lemma NoDup_Map_keys {V} (m : JSMap V) : NoDup (Map_keys m).
Proof. apply (bool_decide_unpack _ (map_distinct m)). Qed.

Lemma elem_of_Map_keys {V} (m : JSMap V) (k : string) :
  k ∈ Map_keys m ↔ is_Some (m !! k).
Proof.
  unfold Map_keys, lookup, JSMap_lookup.
  induction (map_entries m) as [|[k0 v0] rest IH]; simpl.
  - split; [by intros ?%elem_of_nil | by intros [? ?]].
  - destruct (decide (k0 = k)) as [->|Hne].
    + split; [by eexists | intros _; by left].
    + rewrite <- IH. split; [by intros [?|?]%elem_of_cons | intros ?; by right].
Qed.

Lemma set_set_entry {V} (k : string) (v1 v2 : V) entries :
  set_entry k v2 (set_entry k v1 entries) = set_entry k v2 entries.
Proof.
  induction entries as [|[k0 v0] rest IH]; simpl.
  - by destruct (decide (k = k)).
  - destruct (decide (k0 = k)) as [->|Hne]; simpl.
    + by destruct (decide (k = k)).
    + destruct (decide (k0 = k)); [done|]. by rewrite IH.
Qed.

Lemma Map_set_set {V} (k : string) (v1 v2 : V) (m : JSMap V) :
  <[k := v2]> (<[k := v1]> m) = <[k := v2]> m.
Proof. apply JSMap_eq, set_set_entry. Qed.

(** ** The store *)

Lemma deref_new (h : list (gmap string JSValue)) content :
  deref (h ++ [content]) (length h) = content.
Proof. unfold deref. by rewrite lookup_app_r, Nat.sub_diag by lia. Qed.

Lemma deref_or_empty (result : NodeExecuteResult' nat) (h : list (gmap string JSValue)) :
  deref (or_empty result h).2 (or_empty result h).1
  = default ∅ (deref h <$> res_data result).
Proof.
  unfold or_empty. destruct (res_data result) as [d|]; simpl; [done|].
  apply deref_new.
Qed.

Lemma or_empty_keeps (result : NodeExecuteResult' nat) (h : list (gmap string JSValue))
      r content :
  h !! r = Some content → (or_empty result h).2 !! r = Some content.
Proof.
  unfold or_empty. destruct (res_data result); simpl; [done|].
  intros Hr. by apply lookup_app_l_Some.
Qed.

Section RunFacts.
Context {World : Type}.
Variable clock : World → Z.
Variable eng : @WorkflowEngine World.
Variable wf : WorkflowDefinition.

(** One call of the walker, spelled out. *)
Lemma executeNodeChain_step fuel n r m :
  executeNodeChain (S fuel) eng wf n r m =
  match nodeRegistry eng !! node_type n with
  | None =>
      (Finished (Throw (Value (ErrorObj ("Unknown node type: " +:+ node_type n)))), m)
  | Some cls =>
      let creds := extractCredentials n wf in
      let made := construct cls n creds (world (state m)) in
      match made.1 with
      | Throw e =>
          (Finished (Throw e),
           {| state := {| world := made.2;
                          trace := trace (state m) ++ [EvNewThrew n creds e] |};
              heap := heap m |})
      | Normal this =>
          let out := execute_method cls this r (heap m) made.2 in
          let m1 := {| state :=
                         {| world := out.2;
                            trace := (trace (state m) ++ [EvNew n creds])
                                       ++ [EvExecute n (deref (heap m) r)
                                                     (snapshot out.1.2 out.1.1)] |};
                       heap := out.1.2 |} in
          match out.1.1 with
          | Throw e => (Finished (Throw e), m1)
          | Normal result =>
              if res_success result then
                match getNextNodes wf (node_id n) with
                | Throw e => (Finished (Throw (Value e)), m1)
                | Normal [] =>
                    (Finished (Normal (or_empty result (heap m1)).1),
                     {| state := state m1; heap := (or_empty result (heap m1)).2 |})
                | Normal (nextNode :: _) =>
                    executeNodeChain fuel eng wf nextNode (or_empty result (heap m1)).1
                      {| state := state m1; heap := (or_empty result (heap m1)).2 |}
                end
              else
                (Finished (Throw (Value (ErrorObj ("Node execution failed: "
                                                     +:+ show_error (res_error result))))),
                 m1)
          end
      end
  end.
Proof.
  simpl. unfold mbind, M_bind, bind, createNodeInstance.
  destruct (nodeRegistry eng !! node_type n) as [cls|]; simpl; [|done].
  unfold new.
  destruct (construct cls n _ (world (state m))) as [[this|e] w0]; simpl; [|done].
  unfold call_execute, execute; simpl.
  destruct (execute_method cls this r (heap m) w0) as [[[result|e] h'] w'];
    simpl; [|done].
  destruct (res_success result); simpl; [|done].
  destruct (getNextNodes wf (node_id n)) as [[|nextNode others]|e]; done.
Qed.

Lemma executeNodeChain_run fuel : ∀ n r m,
  ∃ tr, trace (state (executeNodeChain fuel eng wf n r m).2) = trace (state m) ++ tr ∧
        chain_run eng wf n (deref (heap m) r)
                  (shown (executeNodeChain fuel eng wf n r m)) tr.
Proof.
  induction fuel as [|fuel IH]; intros n r m.
  - exists []. split; [by rewrite app_nil_r | constructor].
  - rewrite executeNodeChain_step.
    destruct (nodeRegistry eng !! node_type n) as [cls|] eqn:Hreg.
    2:{ exists []. split; [by rewrite app_nil_r | by constructor]. }
    cbv zeta.
    destruct (construct cls n _ (world (state m))) as [[this|e] w0] eqn:Hnew;
      cbn [fst snd].
    2:{ eexists. split; [done|]. eapply run_unbuilt; [done|].
        by exists (world (state m)), w0. }
    destruct (execute_method cls this r (heap m) w0) as [[o h'] w'] eqn:Hex.
    assert (calls cls n (deref (heap m) r) (snapshot h' o)) as Hcalls.
    { by exists (world (state m)), this, r, (heap m), w0, o, h', w'. }
    destruct o as [result|e]; cbn [fst snd snapshot] in *.
    2:{ eexists. split; [simpl; by rewrite <- app_assoc|]. by eapply run_thrown. }
    assert (res_success (seen h' result) = res_success result) as Hseen by done.
    destruct (res_success result) eqn:Hok.
    2:{ eexists. split; [simpl; by rewrite <- app_assoc|].
        by apply (run_failed eng wf n _ cls (seen h' result)). }
    destruct (getNextNodes wf (node_id n)) as [[|nextNode others]|e] eqn:Hnext.
    + eexists. split; [simpl; by rewrite <- app_assoc|].
      unfold shown; cbn [fst snd heap]. rewrite deref_or_empty.
      by apply (run_end eng wf n _ cls (seen h' result)).
    + match goal with
      | |- context [executeNodeChain fuel eng wf nextNode ?d ?m'] =>
          destruct (IH nextNode d m') as (tr & Htr & Hrun)
      end.
      cbn [heap] in Hrun. rewrite deref_or_empty in Hrun.
      exists (EvNew n (extractCredentials n wf)
                :: EvExecute n (deref (heap m) r) (Normal (seen h' result)) :: tr).
      split; [rewrite Htr; simpl; by rewrite <- !app_assoc|].
      by apply (run_step eng wf n _ cls (seen h' result) nextNode others).
    + eexists. split; [simpl; by rewrite <- app_assoc|].
      by apply (run_blocked eng wf n _ cls (seen h' result)).
Qed.

(** What the walk from the start node, on a store that holds the bag of the
    caller alone, makes of a call of [executeWorkflow]. *)
Lemma executeWorkflow_cases fuel input s :
  executeWorkflow clock fuel eng wf input s =
  match findStartNode wf with
  | None =>
      (Finished (Normal (failed_execution (clock (world s)) (clock (world s)) input
                           "No start node found in workflow")), s)
  | Some startNode =>
      let out := executeNodeChain fuel eng wf startNode 0
                                  {| state := s; heap := [input] |} in
      match out.1 with
      | Finished (Normal result) =>
          (Finished (Normal (successful_execution (clock (world s))
                               (clock (world (state out.2)))
                               (deref (heap out.2) result))), state out.2)
      | Finished (Throw e) =>
          match describe e with
          | Normal message =>
              (Finished (Normal (failed_execution (clock (world s))
                                   (clock (world (state out.2)))
                                   (deref (heap out.2) 0) message)), state out.2)
          | Throw e' => (Finished (Throw e'), state out.2)
          end
      | Unfinished => (Unfinished, state out.2)
      end
  end.
Proof.
  unfold executeWorkflow, with_store, mbind, M_bind, bind, try_catch, now, returned,
    read, pure_call; simpl.
  destruct (findStartNode wf) as [startNode|]; simpl; [|done].
  destruct (executeNodeChain fuel eng wf startNode 0 _) as [[[result|e]|] m']; simpl;
    try done.
  by destruct (describe e).
Qed.
End RunFacts.
(** ** Start node resolution *)

Lemma elem_of_add_targets (conns : list WorkflowConnection) (acc : gset string) i :
  i ∈ foldl (fun acc' c => acc' ∪ {[ conn_node c ]}) acc conns ↔
  i ∈ acc ∨ ∃ c, c ∈ conns ∧ conn_node c = i.
Proof.
  revert acc. induction conns as [|c conns IH]; intros acc; simpl.
  - split; [auto | intros [?|(c & Hc & _)]; [done | by apply elem_of_nil in Hc]].
  - rewrite IH, elem_of_union, elem_of_singleton. split.
    + intros [[?| ->]|(c' & ? & ?)]; [by left | right; exists c | right; exists c'];
        split; try done; by constructor.
    + intros [?|(c' & Hc' & ?)]; [by left; left|].
      apply elem_of_cons in Hc' as [->|?]; [left; right; done | right; eauto].
Qed.

Lemma elem_of_add_all_targets (ls : list (list WorkflowConnection))
      (acc : gset string) i :
  i ∈ foldl (fun acc conns =>
               foldl (fun acc' c => acc' ∪ {[ conn_node c ]}) acc conns) acc ls ↔
  i ∈ acc ∨ ∃ conns c, conns ∈ ls ∧ c ∈ conns ∧ conn_node c = i.
Proof.
  revert acc. induction ls as [|l ls IH]; intros acc; simpl.
  - split; [auto | intros [?|(? & ? & H & _)]; [done | by apply elem_of_nil in H]].
  - rewrite IH, elem_of_add_targets. split.
    + intros [[?|(c & ? & ?)]|(l' & c & ? & ? & ?)];
        [by left | right; exists l, c | right; exists l', c];
        split_and!; try done; by constructor.
    + intros [?|(l' & c & Hl' & ? & ?)]; [by left; left|].
      apply elem_of_cons in Hl' as [->|?]; [left; right; eauto | right; eauto 6].
Qed.

Lemma elem_of_connectedNodes wf i : i ∈ connectedNodes wf ↔ is_target wf i.
Proof.
  unfold connectedNodes, is_target. rewrite elem_of_add_all_targets. split.
  - intros [H|(conns & c & Hin & ? & ?)]; [by apply not_elem_of_empty in H|].
    apply list_elem_of_fmap in Hin as ([k conns'] & -> & Hk).
    apply elem_of_map_to_list in Hk. exists k, conns', c. done.
  - intros (k & conns & c & Hk & ? & ?). right. exists conns, c. split_and!; try done.
    apply list_elem_of_fmap. exists (k, conns). split; [done|].
    by apply elem_of_map_to_list.
Qed.

Lemma first_unconnected_Some connected l n :
  first_unconnected connected l = Some n ↔
  ∃ pre post, l = pre ++ n :: post ∧ (node_id n ∉ connected) ∧
              (∀ m, m ∈ pre → node_id m ∈ connected).
Proof.
  induction l as [|x l IH]; simpl.
  - split; [done | intros (pre & post & H & _); by destruct pre].
  - destruct (decide (node_id x ∈ connected)) as [Hx|Hx].
    + rewrite IH. split.
      * intros (pre & post & -> & ? & Hpre). exists (x :: pre), post.
        split_and!; try done. intros m [->|?]%elem_of_cons; auto.
      * intros (pre & post & Heq & Hn & Hpre). destruct pre as [|y pre]; simpl in Heq.
        { injection Heq as -> _. done. }
        injection Heq as -> ->. exists pre, post. split_and!; try done.
        intros m ?. apply Hpre. by constructor.
    + split.
      * intros [= ->]. exists [], l. split_and!; try done. intros m H.
        by apply elem_of_nil in H.
      * intros (pre & post & Heq & Hn & Hpre). destruct pre as [|y pre]; simpl in Heq.
        { by injection Heq as -> _. }
        injection Heq as -> _. exfalso. apply Hx, Hpre. by constructor.
Qed.

Lemma first_unconnected_None connected l :
  first_unconnected connected l = None ↔ ∀ m, m ∈ l → node_id m ∈ connected.
Proof.
  induction l as [|x l IH]; simpl.
  - split; [intros _ m H; by apply elem_of_nil in H | done].
  - destruct (decide (node_id x ∈ connected)) as [Hx|Hx].
    + rewrite IH. split.
      * intros H m [->|?]%elem_of_cons; auto.
      * intros H m ?. apply H. by constructor.
    + split; [done|]. intros H. exfalso. apply Hx, H. by constructor.
Qed.

(** ** Facts about runs of the chain walker *)

Lemma append_empty_r (t : string) : t +:+ "" = t.
Proof.
  induction t as [|c t IH]; [done|].
  change (String c (t +:+ "") = String c t). by rewrite IH.
Qed.

Lemma contains_suffix (before text : string) : contains (before +:+ text) text.
Proof. exists before, "". by rewrite append_empty_r. Qed.

Lemma nextNodes_of_resolve wf conns : nextNodes_of wf conns = omap (resolve wf) conns.
Proof.
  unfold nextNodes_of.
  assert (∀ conns acc,
            foldl (fun nextNodes c =>
                     match find (fun n => bool_decide (node_id n = conn_node c))
                                (nodes wf) with
                     | Some nextNode => nextNodes ++ [nextNode]
                     | None => nextNodes
                     end) acc conns = acc ++ omap (resolve wf) conns) as Hgen.
  { clear conns. induction conns as [|c conns IH]; intros acc; simpl.
    - by rewrite app_nil_r.
    - rewrite IH. unfold resolve at 2.
      destruct (find _ (nodes wf)); [by rewrite <- app_assoc | done]. }
  by rewrite Hgen.
Qed.

(** [getNextNodes] throws exactly for an id that has no entry of its own in
    the connections map and is a property name of [Object.prototype]. *)
Lemma getNextNodes_throws wf i e :
  getNextNodes wf i = Throw e ↔
  connections wf !! i = None ∧ inherited i = true ∧ e = ErrorObj not_iterable.
Proof.
  unfold getNextNodes. destruct (connections wf !! i) as [conns|].
  - split; [done | by intros [? _]].
  - destruct (inherited i).
    + split; [by intros [= <-] | by intros (_ & _ & ->)].
    + split; [done | by intros (_ & ? & _)].
Qed.

Lemma getNextNodes_resolve wf i next :
  getNextNodes wf i = Normal next →
  next = omap (resolve wf) (default [] (connections wf !! i)).
Proof.
  unfold getNextNodes. destruct (connections wf !! i) as [conns|]; simpl.
  - intros [= <-]. apply nextNodes_of_resolve.
  - by destruct (inherited i); intros [= <-].
Qed.

Lemma followed_first_resolved wf a b : followed wf a b ↔ first_resolved wf a = Some b.
Proof.
  unfold followed, first_resolved. split.
  - intros [others Hnext]. by rewrite <- (getNextNodes_resolve _ _ _ Hnext).
  - intros Hhead. unfold getNextNodes.
    destruct (connections wf !! node_id a) as [conns|]; simpl in *; [|done].
    rewrite nextNodes_of_resolve.
    destruct (omap (resolve wf) conns) as [|x others]; [done|].
    injection Hhead as ->. by exists others.
Qed.


Lemma last_further {A} (x ev : A) (l : list A) :
  last l = Some ev → last (x :: l) = Some ev.
Proof. intros Hl. destruct l as [|y l]; [done|]. by rewrite last_cons, Hl. Qed.

Section ChainFacts.
Context {World : Type}.
Variable eng : @WorkflowEngine World.
Variable wf : WorkflowDefinition.

Lemma chain_run_failure n input r tr m i result :
  chain_run eng wf n input r tr →
  EvExecute m i (Normal result) ∈ tr →
  res_success result = false →
  r = Finished (Throw (ErrorObj ("Node execution failed: "
                                   +:+ show_error (res_error result)))) ∧
  ∃ before, tr = before ++ [EvExecute m i (Normal result)].
Proof.
  intros Hrun Hin Hfail. induction Hrun as
    [ | | n input cls e Hreg Hnew
      | n input cls e Hreg Hcall | n input cls res Hreg Hcall Hres
      | n input cls res e Hreg Hcall Hres Hnext | n input cls res Hreg Hcall Hres Hnext
      | n input cls res nextNode others r tr Hreg Hcall Hres Hnext Hrun IH ].
  - by apply elem_of_nil in Hin.
  - by apply elem_of_nil in Hin.
  - by apply list_elem_of_singleton in Hin.
  - apply elem_of_cons in Hin as [Hin|Hin]; [done|].
    by apply list_elem_of_singleton in Hin.
  - apply elem_of_cons in Hin as [Hin|Hin]; [done|].
    apply list_elem_of_singleton in Hin. injection Hin as -> -> ->.
    split; [done|]. by eexists [_].
  - apply elem_of_cons in Hin as [Hin|Hin]; [done|].
    apply list_elem_of_singleton in Hin. injection Hin as -> -> ->. congruence.
  - apply elem_of_cons in Hin as [Hin|Hin]; [done|].
    apply list_elem_of_singleton in Hin. injection Hin as -> -> ->. congruence.
  - apply elem_of_cons in Hin as [Hin|Hin]; [done|].
    apply elem_of_cons in Hin as [Hin|Hin].
    { injection Hin as -> -> ->. congruence. }
    destruct (IH Hin) as (-> & before & ->). split; [done|].
    by eexists (_ :: _ :: before).
Qed.


Lemma chain_run_credentials n input r tr m creds :
  chain_run eng wf n input r tr →
  EvNew m creds ∈ tr ∨ (∃ e, EvNewThrew m creds e ∈ tr) →
  creds = default ∅ (node_credentials m).
Proof.
  intros Hrun. induction Hrun; intros [Hin|[e0 Hin]];
    repeat (apply elem_of_cons in Hin as [Hin|Hin];
            [try discriminate Hin;
             first [by injection Hin as -> -> | by injection Hin as -> -> _] |]);
    try (by apply elem_of_nil in Hin); eauto.
Qed.

(** A constructor that throws ends the walk, with what it threw. *)
Lemma chain_run_unbuilt n input r tr m creds e :
  chain_run eng wf n input r tr →
  EvNewThrew m creds e ∈ tr →
  r = Finished (Throw e) ∧
  (∃ cls, nodeRegistry eng !! node_type m = Some cls ∧ new_throws cls m e) ∧
  ∃ before, tr = before ++ [EvNewThrew m creds e].
Proof.
  intros Hrun Hin. induction Hrun as
    [ | | n input cls e' Hreg Hnew
      | n input cls e' Hreg Hcall | n input cls res Hreg Hcall Hres
      | n input cls res e' Hreg Hcall Hres Hnext | n input cls res Hreg Hcall Hres Hnext
      | n input cls res nextNode others r tr Hreg Hcall Hres Hnext Hrun IH ];
    try (by apply elem_of_nil in Hin);
    try (apply elem_of_cons in Hin as [Hin|Hin]; [done|];
         by apply list_elem_of_singleton in Hin).
  - apply list_elem_of_singleton in Hin. injection Hin as -> -> ->.
    split_and!; [done | by exists cls | by exists []].
  - apply elem_of_cons in Hin as [Hin|Hin]; [done|].
    apply elem_of_cons in Hin as [Hin|Hin]; [done|].
    destruct (IH Hin) as (-> & ? & before & ->). split_and!; [done | done |].
    by eexists (_ :: _ :: before).
Qed.

(** Every [execute] call of a run is made on the instance built from the
    node and the credentials bag of its own definition. *)
Lemma chain_run_calls n input r tr m given outcome :
  chain_run eng wf n input r tr →
  EvExecute m given outcome ∈ tr →
  ∃ cls, nodeRegistry eng !! node_type m = Some cls ∧ calls cls m given outcome.
Proof.
  intros Hrun. induction Hrun; intros Hin;
    repeat (apply elem_of_cons in Hin as [Hin|Hin];
            [try discriminate Hin; try (injection Hin as -> -> ->; by eexists) |]);
    try (by apply elem_of_nil in Hin); auto.
Qed.

Lemma chain_run_path n input r tr :
  chain_run eng wf n input r tr →
  executed tr = instantiated tr ∧
  (instantiated tr = [] ∨ head (instantiated tr) = Some n) ∧
  ∀ i a b, instantiated tr !! i = Some a → instantiated tr !! S i = Some b →
           first_resolved wf a = Some b.
Proof.
  intros Hrun. induction Hrun as
    [ | | | | | | | n input cls res nextNode others r tr Hreg Hcall Hres Hnext Hrun IH ];
    simpl; try (split_and!; [done | auto | by intros [|[|?]] ???]).
  destruct IH as (Hex & Hhead & Hpath). split_and!.
  - by rewrite Hex.
  - by right.
  - intros [|i] a b; simpl.
    + intros [= <-] Hb. destruct Hhead as [Hnil|Hhead].
      { by rewrite Hnil in Hb. }
      rewrite <- head_lookup, Hhead in Hb. injection Hb as <-.
      apply followed_first_resolved. by exists others.
    + apply Hpath.
Qed.

(** *** Why a walk stops *)


Lemma chain_run_throw n input e tr :
  chain_run eng wf n input (Finished (Throw e)) tr →
  (∃ k, next_up wf n tr k ∧ nodeRegistry eng !! node_type k = None ∧
        e = ErrorObj ("Unknown node type: " +:+ node_type k)) ∨
  (∃ m creds, last tr = Some (EvNewThrew m creds e)) ∨
  (∃ m given, last tr = Some (EvExecute m given (Throw e))) ∨
  (∃ m given result,
     last tr = Some (EvExecute m given (Normal result)) ∧
     res_success result = false ∧
     e = ErrorObj ("Node execution failed: " +:+ show_error (res_error result))) ∨
  (∃ m given result,
     last tr = Some (EvExecute m given (Normal result)) ∧
     res_success result = true ∧
     connections wf !! node_id m = None ∧ inherited (node_id m) = true ∧
     e = ErrorObj not_iterable).
Proof.
  remember (Finished (Throw e)) as r eqn:Hr. intros Hrun. induction Hrun as
    [ | n input Hreg | n input cls e' Hreg Hnew
      | n input cls e' Hreg Hcall | n input cls res Hreg Hcall Hres
      | n input cls res e' Hreg Hcall Hres Hnext | n input cls res Hreg Hcall Hres Hnext
      | n input cls res nextNode others r tr Hreg Hcall Hres Hnext Hrun IH ];
    try discriminate Hr.
  - injection Hr as <-. left. exists n. split_and!; [by left | done | done].
  - injection Hr as <-. right; left. by eexists n, _.
  - injection Hr as <-. do 2 right; left. by exists n, input.
  - injection Hr as <-. do 3 right; left. by exists n, input, res.
  - injection Hr as <-. do 4 right. exists n, input, res.
    apply getNextNodes_throws in Hnext as (? & ? & ->). by split_and!.
  - destruct (IH Hr) as [(k & Hup & Hk & ->)|Hrest].
    + left. exists k. split_and!; try done.
      destruct Hup as [[-> ->]|(m & given & result & Hlast & Hok & Hfirst)].
      * right. exists n, input, res. split_and!; try done.
        apply followed_first_resolved. by exists others.
      * right. exists m, given, result. split_and!; try done.
        by do 2 apply last_further.
    + right.
      assert (∀ ev, last tr = Some ev →
                    last (EvNew n (extractCredentials n wf)
                            :: EvExecute n input (Normal res) :: tr) = Some ev) as Hlast.
      { intros ev Hev. by do 2 apply last_further. }
      destruct Hrest as [(m & creds & ?)|[(m & given & ?)
                                         |[(m & given & result & ? & ? & ?)
                                          |(m & given & result & ? & ? & ? & ? & ?)]]].
      * left. exists m, creds. by apply Hlast.
      * right; left. exists m, given. by apply Hlast.
      * do 2 right; left. exists m, given, result. split_and!; try done. by apply Hlast.
      * do 3 right. exists m, given, result. split_and!; try done. by apply Hlast.
Qed.


(** *** Termination of the walk *)

Lemma resolve_Some c n :
  resolve wf c = Some n → n ∈ nodes wf ∧ node_id n = conn_node c.
Proof.
  unfold resolve. intros [Hin Hid]%find_some. split; [by apply list_elem_of_In|].
  by apply bool_decide_eq_true in Hid.
Qed.

Lemma followed_edge a b :
  a ∈ nodes wf → followed wf a b → edge wf (node_id a) (node_id b) ∧ b ∈ nodes wf.
Proof.
  intros Ha Hab. apply followed_first_resolved in Hab. unfold first_resolved in Hab.
  apply head_Some_elem_of, list_elem_of_omap in Hab as (c & Hc & Hres).
  apply resolve_Some in Hres as [Hb Hid].
  destruct (connections wf !! node_id a) as [conns|] eqn:Hconns; simpl in Hc;
    [|by apply elem_of_nil in Hc].
  split; [|done]. split_and!; [by exists a | by exists b | by exists conns, c].
Qed.


(** *** A walk that runs into a cycle *)



End ChainFacts.
Section ChainMore.
Context {World : Type}.
Variable eng : @WorkflowEngine World.
Variable wf : WorkflowDefinition.

Lemma chain_run_threading n input r tr :
  chain_run eng wf n input r tr →
  (∀ m given o, executions tr !! 0%nat = Some (m, given, o) → m = n ∧ given = input) ∧
  (∀ i m given o m' given' o',
     executions tr !! i = Some (m, given, o) →
     executions tr !! S i = Some (m', given', o') →
     ∃ result, o = Normal result ∧ res_success result = true ∧
               followed wf m m' ∧ given' = default ∅ (res_data result)).
Proof.
  intros Hrun. induction Hrun as
    [ | | | | | | | n input cls res nextNode others r tr Hreg Hcall Hres Hnext Hrun IH ];
    simpl; try (split; [by intros ??? [= <- <- <-] | by intros [|?] ??????]);
    try (split; [by intros ??? | by intros ???????]).
  destruct IH as [Hfirst Hlater]. split.
  - by intros ??? [= <- <- <-].
  - intros [|i] m given o m' given' o'; simpl.
    + intros [= <- <- <-] Hnext'. destruct (Hfirst _ _ _ Hnext') as [-> ->].
      exists res. split_and!; try done. by exists others.
    + apply Hlater.
Qed.

Lemma chain_run_success n input out tr :
  chain_run eng wf n input (Finished (Normal out)) tr →
  (∀ m given o, (m, given, o) ∈ executions tr →
                ∃ result, o = Normal result ∧ res_success result = true) ∧
  ∃ m given result,
    last (executions tr) = Some (m, given, Normal result) ∧
    out = default ∅ (res_data result) ∧
    getNextNodes wf (node_id m) = Normal [].
Proof.
  remember (Finished (Normal out)) as r eqn:Hr. intros Hrun.
  induction Hrun as
    [ | | | | | | n input cls res Hreg Hcall Hres Hnext
      | n input cls res nextNode others r tr Hreg Hcall Hres Hnext Hrun IH ];
    try discriminate Hr.
  - injection Hr as <-. simpl. split.
    + intros m given o [= -> -> ->]%list_elem_of_singleton. by exists res.
    + by exists n, input, res.
  - destruct (IH Hr) as (Hall & m & given & result & Hlast & Hout & Hend). simpl. split.
    + intros m' given' o' [[= -> -> ->]|Hin]%elem_of_cons; [by exists res | eauto].
    + exists m, given, result. split_and!; try done. by apply last_further.
Qed.

Lemma start_node_is_first_with_its_id start :
  findStartNode wf = Some start →
  start ∈ nodes wf ∧
  find (fun x => bool_decide (node_id x = node_id start)) (nodes wf) = Some start.
Proof.
  intros (pre & post & Heq & Hn & Hpre)%first_unconnected_Some. rewrite Heq. split.
  - apply elem_of_app. right. by constructor.
  - clear Heq. induction pre as [|x pre IH]; simpl.
    + by rewrite bool_decide_eq_true_2.
    + rewrite bool_decide_eq_false_2.
      * apply IH. intros m ?. apply Hpre. by constructor.
      * intros Hid. apply Hn. rewrite <- Hid. apply Hpre. by constructor.
Qed.

Lemma followed_is_first_with_its_id a b :
  followed wf a b →
  b ∈ nodes wf ∧
  find (fun x => bool_decide (node_id x = node_id b)) (nodes wf) = Some b.
Proof.
  intros Hab. apply followed_first_resolved in Hab. unfold first_resolved in Hab.
  apply head_Some_elem_of, list_elem_of_omap in Hab as (c & _ & Hres).
  pose proof (resolve_Some wf c b Hres) as [Hin Hid]. split; [done|].
  unfold resolve in Hres. by rewrite Hid.
Qed.

Lemma chain_run_members n input r tr :
  chain_run eng wf n input r tr →
  (n ∈ nodes wf ∧
   find (fun x => bool_decide (node_id x = node_id n)) (nodes wf) = Some n) →
  ∀ m, m ∈ instantiated tr →
       m ∈ nodes wf ∧
       find (fun x => bool_decide (node_id x = node_id m)) (nodes wf) = Some m.
Proof.
  intros Hrun. induction Hrun as
    [ | | | | | | | n input cls res nextNode others r tr Hreg Hcall Hres Hnext Hrun IH ];
    intros Hn m; simpl;
    try (by intros Hm; apply elem_of_nil in Hm);
    try (by intros ->%list_elem_of_singleton).
  intros [->|Hm]%elem_of_cons; [done|]. apply IH; [|done].
  apply followed_is_first_with_its_id with n. by exists others.
Qed.


End ChainMore.
(** ** What [executeWorkflow] returns *)

Section EngineFacts.
Context {World : Type}.
Variable clock : World → Z.

(** The events a call of [executeWorkflow] adds are those of the chain
    walker started at the start node on the bag of the caller, and what the
    call returns is what the walk ended in, reported. *)
Lemma executeWorkflow_run (eng : @WorkflowEngine World) (wf : WorkflowDefinition)
      (fuel : nat) (input : WorkflowData) (s s' : St) (r : Run WorkflowExecution)
      (tr : list Event) :
  executeWorkflow clock fuel eng wf input s = (r, s') →
  trace s' = trace s ++ tr →
  match findStartNode wf with
  | None => tr = []
  | Some startNode =>
      ∃ walk, chain_run eng wf startNode input walk tr ∧ reported walk r
  end.
Proof.
  rewrite executeWorkflow_cases. intros Hrun Htr.
  destruct (findStartNode wf) as [startNode|].
  - destruct (executeNodeChain_run eng wf fuel startNode 0 {| state := s; heap := [input] |})
      as (tr' & Htr' & Hch).
    cbv zeta in Hrun. unfold shown in Hch.
    destruct (executeNodeChain fuel eng wf startNode 0 _) as [out m'].
    simpl in *.
    assert (s' = state m' ∧
            reported (match out with
                      | Finished (Normal r0) => Finished (Normal (deref (heap m') r0))
                      | Finished (Throw e) => Finished (Throw e)
                      | Unfinished => Unfinished
                      end) r) as [-> Hrep].
    { destruct out as [[result|e]|]; simpl.
      - injection Hrun as <- <-. split; [done|]. by eexists _, _.
      - destruct (describe e); injection Hrun as <- <-; (split; [done|]);
          [by eexists _, _, _ | done].
      - by injection Hrun as <- <-. }
    rewrite Htr' in Htr. apply app_inv_head in Htr as <-. eauto.
  - injection Hrun as _ <-. rewrite <- (app_nil_r (trace s)) in Htr at 1.
    by apply app_inv_head in Htr.
Qed.

(** C1. Start-node resolution returns the first node, in declaration order,
    whose id is no connection target anywhere in the connections map; and
    when every node id is a connection target (also for a single node with a
    self-loop, and for a definition without nodes) [executeWorkflow] returns
    a record with status [error] whose message says that no start node was
    found. *)
Theorem start_node_resolution (wf : WorkflowDefinition) :
  (∀ n, findStartNode wf = Some n ↔
        ∃ pre post, nodes wf = pre ++ n :: post ∧ ¬ is_target wf (node_id n) ∧
                    (∀ m, m ∈ pre → is_target wf (node_id m))) ∧
  ((∀ m, m ∈ nodes wf → is_target wf (node_id m)) →
   findStartNode wf = None ∧
   ∀ fuel (eng : @WorkflowEngine World) input s, ∃ exec,
     executeWorkflow clock fuel eng wf input s = (Finished (Normal exec), s) ∧
     ex_status exec = error ∧
     ex_error exec = Some "No start node found in workflow").
Proof.
  split.
  - intros n. unfold findStartNode. rewrite first_unconnected_Some.
    split; intros (pre & post & Heq & Hn & Hpre); exists pre, post;
      (split_and!; [done | by rewrite elem_of_connectedNodes in * | ]);
      intros m Hm; apply elem_of_connectedNodes; auto.
  - intros Hall.
    assert (findStartNode wf = None) as Hnone.
    { apply first_unconnected_None. intros m Hm.
      apply elem_of_connectedNodes. auto. }
    split; [done|]. intros fuel eng input s.
    rewrite executeWorkflow_cases, Hnone. eexists. split; [reflexivity|done].
Qed.


(** C9. A record returned by [executeWorkflow] has status [success] or
    [error], never [running] or [cancelled], and its end time is set. *)
Theorem returned_status_is_final (eng : @WorkflowEngine World)
        (wf : WorkflowDefinition) (fuel : nat) (input : WorkflowData) (s s' : St)
        (exec : WorkflowExecution) :
  executeWorkflow clock fuel eng wf input s = (Finished (Normal exec), s') →
  (ex_status exec = success ∨ ex_status exec = error) ∧
  ex_status exec ≠ running ∧ ex_status exec ≠ cancelled ∧
  ∃ t, ex_endTime exec = Some t.
Proof.
  rewrite executeWorkflow_cases.
  destruct (findStartNode wf) as [startNode|].
  - cbv zeta.
    destruct (executeNodeChain fuel eng wf startNode 0 _) as [[[?|e]|] ?]; simpl;
      [| destruct (describe e) |]; intros [= <- <-]; simpl; eauto 6.
  - intros [= <- <-]; simpl; eauto 6.
Qed.

(** A method of the repository changes no bag. *)
Lemma by_value_keeps_the_store (method : @Method World) : keeps_the_store (by_value method).
Proof.
  intros self r h w outcome h' w'. unfold by_value; simpl.
  destruct (method self (deref h r) w) as [[result|e] w1].
  - destruct (res_data result).
    + intros [= _ <- _] i content Hi. by apply lookup_app_l_Some.
    + by intros [= _ <- _].
  - by intros [= _ <- _].
Qed.

(** A walk over node types that change no bag already in the store leaves
    every such bag as it was. *)
Lemma chain_keeps_the_store (eng : @WorkflowEngine World) (wf : WorkflowDefinition) :
  (∀ t cls, nodeRegistry eng !! t = Some cls → keeps_the_store cls) →
  ∀ fuel n r m i content,
    heap m !! i = Some content →
    heap (executeNodeChain fuel eng wf n r m).2 !! i = Some content.
Proof.
  intros Hkeep. induction fuel as [|fuel IH]; intros n r m i content Hi; [done|].
  rewrite executeNodeChain_step.
  destruct (nodeRegistry eng !! node_type n) as [cls|] eqn:Hreg; [|done]. cbv zeta.
  destruct (construct cls n _ (world (state m))) as [[this|e] w0]; cbn [fst snd];
    [|done].
  destruct (execute_method cls this r (heap m) w0) as [[o h'] w'] eqn:Hex.
  pose proof (Hkeep _ _ Hreg _ _ _ _ _ _ _ Hex _ _ Hi) as Hi'.
  destruct o as [result|e]; simpl; [|done].
  destruct (res_success result); [|done].
  destruct (getNextNodes wf (node_id n)) as [[|nextNode others]|e]; simpl.
  - by apply or_empty_keeps.
  - apply IH. simpl. by apply or_empty_keeps.
  - done.
Qed.


(** C2. If, during a run, some node's [execute] returns a result with
    [success = false], the run returns a record with status [error] whose
    error string contains the error that node reported, and that call is the
    last thing the engine does to any node: no node is instantiated or
    executed after it. *)
Theorem node_failure_aborts_run (eng : @WorkflowEngine World)
        (wf : WorkflowDefinition) (fuel : nat) (input : WorkflowData) (s s' : St)
        (r : Run WorkflowExecution) (tr : list Event)
        (n : WorkflowNode) (given : WorkflowData) (result : NodeExecuteResult) :
  executeWorkflow clock fuel eng wf input s = (r, s') →
  trace s' = trace s ++ tr →
  EvExecute n given (Normal result) ∈ tr →
  res_success result = false →
  ∃ exec before,
    r = Finished (Normal exec) ∧
    ex_status exec = error ∧
    ex_error exec = Some ("Node execution failed: " +:+ show_error (res_error result)) ∧
    (∀ reported, res_error result = Some reported →
                 ∃ msg, ex_error exec = Some msg ∧ contains msg reported) ∧
    tr = before ++ [EvExecute n given (Normal result)].
Proof.
  intros Hrun Htr Hin Hfail.
  pose proof (executeWorkflow_run _ _ _ _ _ _ _ _ Hrun Htr) as Hch.
  destruct (findStartNode wf) as [startNode|]; [|subst tr; by apply elem_of_nil in Hin].
  destruct Hch as (walk & Hch & Hrep).
  destruct (chain_run_failure _ _ _ _ _ _ _ _ _ Hch Hin Hfail) as (-> & before & ->).
  simpl in Hrep. destruct Hrep as (t0 & t1 & data & ->).
  eexists _, before. split_and!; try done.
  intros reported Hrep. eexists. split; [done|]. rewrite Hrep. simpl.
  apply contains_suffix.
Qed.

(** C3, as the code has it. The nodes a run instantiates are the nodes it
    executes, the first of them is the start node, and each next one is the
    first declared connection target of its predecessor that names an
    existing node: targets naming no node are skipped, and the other targets
    of a node are not run as its successors. *)
Theorem successor_is_first_resolved_target (eng : @WorkflowEngine World)
        (wf : WorkflowDefinition) (fuel : nat) (input : WorkflowData) (s s' : St)
        (r : Run WorkflowExecution) (tr : list Event) :
  executeWorkflow clock fuel eng wf input s = (r, s') →
  trace s' = trace s ++ tr →
  executed tr = instantiated tr ∧
  (∀ a, instantiated tr !! 0%nat = Some a → findStartNode wf = Some a) ∧
  (∀ i a b, instantiated tr !! i = Some a → instantiated tr !! S i = Some b →
            first_resolved wf a = Some b).
Proof.
  intros Hrun Htr.
  pose proof (executeWorkflow_run _ _ _ _ _ _ _ _ Hrun Htr) as Hch.
  destruct (findStartNode wf) as [startNode|].
  - destruct Hch as (walk & Hch & _).
    destruct (chain_run_path _ _ _ _ _ _ Hch) as (Hex & Hhead & Hpath).
    split_and!; try done. intros a Ha. rewrite <- head_lookup in Ha.
    destruct Hhead as [Hnil|Hhead]; [by rewrite Hnil in Ha | congruence].
  - subst tr. split_and!; [done | by intros ? | by intros ???].
Qed.

End EngineFacts.
(** ** Termination of the chain walker *)

Section Termination.
Context {World : Type}.
Variable eng : @WorkflowEngine World.
Variable wf : WorkflowDefinition.


End Termination.

(** ** The built-in nodes *)

Lemma lookup_spread_after (own spread : gmap string JSValue) k :
  spread_after own spread !! k = match spread !! k with
                                 | Some v => Some v
                                 | None => own !! k
                                 end.
Proof.
  unfold spread_after. rewrite lookup_union.
  by destruct (spread !! k), (own !! k).
Qed.

Lemma merged_spread_after (own inputData : gmap string JSValue) (keys : gset string) :
  dom own = keys →
  merged_input_first inputData keys (createSuccessResult (spread_after own inputData)).
Proof.
  intros Hdom. exists own, (spread_after own inputData).
  split_and!; [done | done | apply lookup_spread_after].
Qed.

Lemma validateRequiredCredentials_missing self requiredCreds cred :
  cred ∈ requiredCreds →
  truthy (getCredential self cred) = false →
  ∃ missing,
    missing ∈ requiredCreds ∧ truthy (getCredential self missing) = false ∧
    validateRequiredCredentials self requiredCreds
    = Throw (ErrorObj (missing_credential missing)).
Proof.
  unfold getCredential. induction requiredCreds as [|c rest IH]; intros Hin Hfalsy.
  - by apply elem_of_nil in Hin.
  - simpl. destruct (truthy (js_get (this_credentials self) c)) eqn:Hc; simpl.
    + apply elem_of_cons in Hin as [->|Hin]; [congruence|].
      destruct (IH Hin Hfalsy) as (missing & ? & ? & ?).
      exists missing. split_and!; [by constructor | done | done].
    + exists c. split_and!; [by constructor | done | done].
Qed.

Lemma validateRequiredCredentials_one self cred :
  truthy (getCredential self cred) = false →
  validateRequiredCredentials self [cred] = Throw (ErrorObj (missing_credential cred)).
Proof. unfold getCredential. simpl. by intros ->. Qed.

(** What the engine sees of a method of the repository. *)
Lemma by_value_execute {World} (method : @Method World) self r
      (h : list (gmap string JSValue)) w :
  ∃ o h',
    execute_method (by_value method) self r h w = (o, h', (method self (deref h r) w).2) ∧
    snapshot h' o = widen (method self (deref h r) w).1 ∧
    (∀ i content, h !! i = Some content → h' !! i = Some content).
Proof.
  unfold by_value; simpl.
  destruct (method self (deref h r) w) as [[[ok data err]|e] w1]; simpl.
  - destruct data as [data|]; simpl.
    + eexists _, _. split_and!; [done | | by intros; apply lookup_app_l_Some].
      cbv [snapshot seen widen res_success res_data res_error fst option_fmap fmap option_map].
      by rewrite deref_new.
    + by eexists _, _.
  - by eexists _, _.
Qed.

(** A run whose start node is of a type of the repository, where the method
    fails, and where it succeeds and no connection leaves the node. *)
Section MethodRuns.
Context {World : Type}.
Variable clock : World → Z.
Variable eng : @WorkflowEngine World.
Variable wf : WorkflowDefinition.

Lemma failing_start_node start (method : @Method World) fuel input s msg w1 :
  findStartNode wf = Some start →
  nodeRegistry eng !! node_type start = Some (by_value method) →
  method {| this_node := start; this_credentials := extractCredentials start wf |}
         input (world s) = (Normal (createErrorResult msg), w1) →
  executeWorkflow clock (S fuel) eng wf input s
  = (Finished (Normal (failed_execution (clock (world s)) (clock w1) input
                         ("Node execution failed: " +:+ msg))),
     {| world := w1;
        trace := (trace s ++ [EvNew start (extractCredentials start wf)])
                   ++ [EvExecute start input (Normal (createErrorResult msg))] |}).
Proof.
  intros Hstart Hreg Hmethod.
  rewrite executeWorkflow_cases, Hstart. cbv zeta.
  rewrite executeNodeChain_step, Hreg. cbv zeta.
  unfold by_value; cbn [construct BaseNode_constructor execute_method heap state world
                          fst snd].
  change (deref [input] 0) with input. by rewrite Hmethod.
Qed.

Lemma succeeding_last_node start (method : @Method World) fuel input s data w1 :
  findStartNode wf = Some start →
  nodeRegistry eng !! node_type start = Some (by_value method) →
  method {| this_node := start; this_credentials := extractCredentials start wf |}
         input (world s) = (Normal (createSuccessResult data), w1) →
  getNextNodes wf (node_id start) = Normal [] →
  executeWorkflow clock (S fuel) eng wf input s
  = (Finished (Normal (successful_execution (clock (world s)) (clock w1) data)),
     {| world := w1;
        trace := (trace s ++ [EvNew start (extractCredentials start wf)])
                   ++ [EvExecute start input (Normal (createSuccessResult data))] |}).
Proof.
  intros Hstart Hreg Hmethod Hend.
  rewrite executeWorkflow_cases, Hstart. cbv zeta.
  rewrite executeNodeChain_step, Hreg. cbv zeta.
  unfold by_value; cbn [construct BaseNode_constructor execute_method heap state world
                          fst snd].
  change (deref [input] 0) with input. rewrite Hmethod. simpl. by rewrite Hend.
Qed.

End MethodRuns.

Section NodeFacts.
Context {World : Type}.
Variable clock : World → Z.
Variable String_ : JSValue → Completion string.
Variable times1000 : JSValue → Completion JSValue.
Variable cwd : World → Completion JSValue.
Variable basename : JSValue → Completion string.
Variable execAsync :
  JSValue → JSValue → JSValue → World → Completion (JSValue * JSValue) * World.
Variable loadGoogleChatAgent : World → Completion unit * World.
Variable sendMessageToSpace :
  JSValue → JSValue → JSValue → World → Completion ChatResponse * World.
Variable loadGoogleDriveAgent : World → Completion unit * World.
Variable uploadFile :
  JSValue → JSValue → JSValue → World → Completion JSValue * World.
Variable fetchTicket :
  BaseNode → JSValue → JSValue → JSValue → World → Completion JSValue * World.
Variable fetchSearch :
  BaseNode → JSValue → JSValue → World → Completion (JSValue * JSValue) * World.

Local Abbreviation Android := (AndroidNode_execute times1000 cwd execAsync).
Local Abbreviation GoogleChat :=
  (GoogleChatNode_execute String_ loadGoogleChatAgent sendMessageToSpace).
Local Abbreviation GoogleDrive :=
  (GoogleDriveNode_execute String_ basename loadGoogleDriveAgent uploadFile).
Local Abbreviation Jira := (JiraNode_execute String_ fetchTicket fetchSearch).

Ltac own_keys :=
  apply merged_spread_after;
  rewrite ?dom_insert_L, ?dom_singleton_L, ?(assoc_L (∪)); reflexivity.

Ltac succeeded_only :=
  cbv zeta; intros; repeat case_match; simplify_eq; try done.

(** C4, as the code has it. When the [execute] of a built-in node type
    succeeds, its result data is a shallow merge of the node's own output
    with the input data in which the input data wins: on every key of the
    input data the merged value is the value of the input data, and the
    node's own value stands only on the other keys. *)
Theorem input_data_wins_on_conflict (self : BaseNode) (inputData : WorkflowData)
        (w w' : World) (result : NodeExecuteResult) :
  res_success result = true →
  (Android self inputData w = (Normal result, w') →
   merged_input_first inputData AndroidNode_keys result) ∧
  (GoogleChat self inputData w = (Normal result, w') →
   merged_input_first inputData GoogleChatNode_keys result) ∧
  (GoogleDrive self inputData w = (Normal result, w') →
   merged_input_first inputData GoogleDriveNode_keys result) ∧
  (Jira self inputData w = (Normal result, w') →
   merged_input_first inputData JiraNode_getTicket_keys result ∨
   merged_input_first inputData JiraNode_searchTickets_keys result).
Proof.
  intros Hok. split_and!.
  - unfold AndroidNode_execute, catch_to_result. succeeded_only; own_keys.
  - unfold GoogleChatNode_execute, GoogleChatNode_sendMessage, unknown_operation,
      catch_to_result.
    succeeded_only; own_keys.
  - unfold GoogleDriveNode_execute, GoogleDriveNode_uploadFileWithAgent,
      unknown_operation, catch_to_result.
    succeeded_only; own_keys.
  - unfold JiraNode_execute, JiraNode_getTicket, JiraNode_searchTickets,
      unknown_operation, catch_to_result.
    succeeded_only; first [left; own_keys | right; own_keys].
Qed.

(** C8. The constructor of a node class is called with the credentials bag
    of the definition of the node, or the empty bag when it has none,
    whatever the workflow, and the instance it gives is the one whose
    [execute] the engine calls; the [execute] of a node type that declares a
    credential, on an instance that lacks it, returns a failure whose error
    names that credential, and a run that starts at such a node ends in a
    record with status [error] that names it. *)
Theorem credentials_are_node_level :
  (∀ (eng : @WorkflowEngine World) wf fuel input s r s' tr,
     executeWorkflow clock fuel eng wf input s = (r, s') →
     trace s' = trace s ++ tr →
     (∀ n creds, EvNew n creds ∈ tr ∨ (∃ e, EvNewThrew n creds e ∈ tr) →
                 creds = default ∅ (node_credentials n)) ∧
     (∀ n given outcome,
        EvExecute n given outcome ∈ tr →
        ∃ cls, nodeRegistry eng !! node_type n = Some cls ∧
               calls cls n given outcome)) ∧
  (∀ self requiredCreds cred,
     cred ∈ requiredCreds →
     truthy (getCredential self cred) = false →
     ∃ missing,
       missing ∈ requiredCreds ∧ truthy (getCredential self missing) = false ∧
       validateRequiredCredentials self requiredCreds
       = Throw (ErrorObj (missing_credential missing))) ∧
  (∀ self inputData (w : World) cred,
     truthy (getCredential self cred) = false →
     (cred ∈ JiraNode_credentials →
      Jira self inputData w = (Normal (createErrorResult (missing_credential cred)), w)) ∧
     (cred ∈ GoogleChatNode_credentials →
      GoogleChat self inputData w
      = (Normal (createErrorResult (missing_credential cred)), w)) ∧
     (cred ∈ GoogleDriveNode_credentials →
      GoogleDrive self inputData w
      = (Normal (createErrorResult (missing_credential cred)), w))) ∧
  (∀ (eng : @WorkflowEngine World) wf fuel input s start cred method,
     findStartNode wf = Some start →
     nodeRegistry eng !! node_type start = Some (by_value method) →
     truthy (js_get (default ∅ (node_credentials start)) cred) = false →
     (method = Jira ∧ cred ∈ JiraNode_credentials) ∨
     (method = GoogleChat ∧ cred ∈ GoogleChatNode_credentials) ∨
     (method = GoogleDrive ∧ cred ∈ GoogleDriveNode_credentials) →
     executeWorkflow clock (S fuel) eng wf input s
     = (Finished (Normal (failed_execution (clock (world s)) (clock (world s)) input
                            ("Node execution failed: " +:+ missing_credential cred))),
        {| world := world s;
           trace := (trace s ++ [EvNew start (default ∅ (node_credentials start))])
                      ++ [EvExecute start input
                            (Normal (createErrorResult (missing_credential cred)))] |})).
Proof.
  assert (∀ self inputData (w : World) cred,
            truthy (getCredential self cred) = false →
            (cred ∈ JiraNode_credentials →
             Jira self inputData w
             = (Normal (createErrorResult (missing_credential cred)), w)) ∧
            (cred ∈ GoogleChatNode_credentials →
             GoogleChat self inputData w
             = (Normal (createErrorResult (missing_credential cred)), w)) ∧
            (cred ∈ GoogleDriveNode_credentials →
             GoogleDrive self inputData w
             = (Normal (createErrorResult (missing_credential cred)), w))) as Hnodes.
  { intros self inputData w cred Hfalsy.
    split_and!; intros ->%list_elem_of_singleton;
      unfold JiraNode_execute, GoogleChatNode_execute, GoogleDriveNode_execute,
        catch_to_result;
      by rewrite (validateRequiredCredentials_one _ _ Hfalsy). }
  split_and!.
  - intros eng wf fuel input s r s' tr Hrun Htr.
    pose proof (executeWorkflow_run _ _ _ _ _ _ _ _ _ Hrun Htr) as Hch.
    destruct (findStartNode wf) as [startNode|].
    + destruct Hch as (walk & Hch & _). split.
      * intros n creds Hin. by eapply chain_run_credentials.
      * intros n given outcome Hin. by eapply chain_run_calls.
    + subst tr. split; [intros n creds [Hin|[e Hin]] | intros n given outcome Hin];
        by apply elem_of_nil in Hin.
  - apply validateRequiredCredentials_missing.
  - exact Hnodes.
  - intros eng wf fuel input s start cred method Hstart Hreg Hfalsy Hmethod.
    apply (failing_start_node clock eng wf start method); try done.
    destruct (Hnodes {| this_node := start;
                        this_credentials := extractCredentials start wf |}
                     input (world s) cred Hfalsy) as (HJ & HC & HD).
    destruct Hmethod as [[-> ?]|[[-> ?]|[-> ?]]]; auto.
Qed.

End NodeFacts.

(** ** The scenarios *)

Section EchoScenario.
Import Scenario.
Context {World : Type}.
Variable clock : World → Z.

(** C7. The definition with the single node n1 of an echo type and no
    connection, run on the input [{"x": 1}], returns a record with status
    [success] and data [{"x": 1}]. *)
Theorem echo_scenario (eng : @WorkflowEngine World) (fuel : nat) (s : St) :
  ∃ exec s',
    executeWorkflow clock (S fuel) (registerNode "echo" EchoNode eng) single
                    {[ "x" := JNum 1 ]} s = (Finished (Normal exec), s') ∧
    ex_status exec = success ∧
    ex_data exec = {[ "x" := JNum 1 ]} ∧
    trace s' = trace s ++ [EvNew n1 ∅;
                           EvExecute n1 {[ "x" := JNum 1 ]}
                                     (Normal (createSuccessResult {[ "x" := JNum 1 ]}))].
Proof.
  rewrite executeWorkflow_cases.
  change (findStartNode single) with (Some n1). cbv beta iota zeta.
  rewrite executeNodeChain_step.
  change (node_type n1) with "echo". unfold registerNode; cbn [nodeRegistry].
  rewrite Map_lookup_set_eq. cbv zeta. simpl.
  change (getNextNodes single "n1") with (Normal (E:=Thrown) (@nil WorkflowNode)).
  eexists _, _. split; [reflexivity|]. simpl. split_and!; try done.
  by rewrite <- app_assoc.
Qed.

End EchoScenario.
Section Scenarios.
Import Scenario Fixtures.

Lemma every_node_of_self_loop_is_a_target :
  ∀ m, m ∈ nodes self_loop → is_target self_loop (node_id m).
Proof.
  intros m ->%list_elem_of_singleton.
  exists "n1", [to "n1"], (to "n1"). split_and!; [done | by constructor | done].
Qed.

(** C1 on the node connected to itself, and on the definition without nodes. *)
Lemma start_node_resolution_witness :
  (findStartNode self_loop = None ∧
   ∀ fuel (eng : @WorkflowEngine unit) input s, ∃ exec,
     executeWorkflow clock0 fuel eng self_loop input s = (Finished (Normal exec), s) ∧
     ex_status exec = error ∧
     ex_error exec = Some "No start node found in workflow") ∧
  (findStartNode no_nodes = None ∧
   ∀ fuel (eng : @WorkflowEngine unit) input s, ∃ exec,
     executeWorkflow clock0 fuel eng no_nodes input s = (Finished (Normal exec), s) ∧
     ex_status exec = error ∧
     ex_error exec = Some "No start node found in workflow").
Proof.
  split.
  - apply (proj2 (start_node_resolution clock0 self_loop)).
    exact every_node_of_self_loop_is_a_target.
  - apply (proj2 (start_node_resolution clock0 no_nodes)).
    intros m Hm. by apply elem_of_nil in Hm.
Defined.

(** C2 on n1 → n2 where n1 reports "boom": n2 is never touched. *)
Lemma node_failure_aborts_run_witness :
  ∃ exec before,
    (run 2 boom_then_echo).1 = Finished (Normal exec) ∧
    ex_status exec = error ∧
    ex_error exec = Some ("Node execution failed: "
                            +:+ show_error (res_error (createErrorResult (Data:=gmap string JSValue) "boom"))) ∧
    (∀ reported, res_error (createErrorResult (Data:=gmap string JSValue) "boom") = Some reported →
                 ∃ msg, ex_error exec = Some msg ∧ contains msg reported) ∧
    trace (run 2 boom_then_echo).2 =
      before ++ [EvExecute failing ∅ (Normal (createErrorResult "boom"))].
Proof.
  apply (node_failure_aborts_run clock0 engine boom_then_echo 2 ∅ s0
           (run 2 boom_then_echo).2 (run 2 boom_then_echo).1
           (trace (run 2 boom_then_echo).2) failing ∅ (createErrorResult "boom")).
  - reflexivity.
  - reflexivity.
  - vm_compute. apply list_elem_of_further, list_elem_of_here.
  - reflexivity.
Defined.

(** C9 on the same failing run. *)
Lemma returned_status_is_final_witness :
  (ex_status (failed_execution 0 0 ∅ "Node execution failed: boom") = success ∨
   ex_status (failed_execution 0 0 ∅ "Node execution failed: boom") = error) ∧
  ex_status (failed_execution 0 0 ∅ "Node execution failed: boom") ≠ running ∧
  ex_status (failed_execution 0 0 ∅ "Node execution failed: boom") ≠ cancelled ∧
  ∃ t, ex_endTime (failed_execution 0 0 ∅ "Node execution failed: boom") = Some t.
Proof.
  apply (returned_status_is_final clock0 engine boom_then_echo 2 ∅ s0
           (run 2 boom_then_echo).2).
  vm_compute. reflexivity.
Defined.




(** C3 as stated fails. In A → B, A → C, B → C the node C, an additional
    declared target of A, is instantiated and executed; in A → ghost, A → B
    the node run after A is B, the second declared target of A. *)
Lemma additional_target_is_executed :
  (connections diamond !! "A" = Some [to "B"; to "C"] ∧
   instantiated (trace (run 5 diamond).2) = [nA; nB; nC] ∧
   executed (trace (run 5 diamond).2) = [nA; nB; nC]) ∧
  (connections dangling !! "A" = Some [to "ghost"; to "B"] ∧
   resolve dangling (to "ghost") = None ∧
   instantiated (trace (run 5 dangling).2) = [nA; nB] ∧
   executed (trace (run 5 dangling).2) = [nA; nB]).
Proof. vm_compute. done. Qed.

(** C3, as the code has it, on A → ghost, A → B. *)
Lemma successor_is_first_resolved_target_witness :
  executed (trace (run 5 dangling).2) = instantiated (trace (run 5 dangling).2) ∧
  (∀ a, instantiated (trace (run 5 dangling).2) !! 0%nat = Some a →
        findStartNode dangling = Some a) ∧
  (∀ i a b, instantiated (trace (run 5 dangling).2) !! i = Some a →
            instantiated (trace (run 5 dangling).2) !! S i = Some b →
            first_resolved dangling a = Some b).
Proof.
  apply (successor_is_first_resolved_target clock0 engine dangling 5 ∅ s0
           (run 5 dangling).2 (run 5 dangling).1 (trace (run 5 dangling).2)).
  - reflexivity.
  - reflexivity.
Defined.






(** C4 as stated fails. The Android node for [yarn build], given input data
    that already has the keys [command] and [stdout], succeeds with data in
    which both keys keep the values of the input data: the node's own
    [command] and the "BUILD SUCCESSFUL" it read are lost. *)
Lemma own_keys_lose_on_conflict :
  AndroidNode_execute seconds_to_ms home shell android_build previous_output tt
  = (Normal (createSuccessResult build_output), tt) ∧
  getParameter android_build "command" JUndefined = JStr "yarn build" ∧
  previous_output !! "command" = Some (JStr "yarn lint") ∧
  build_output !! "command" = Some (JStr "yarn lint") ∧
  previous_output !! "stdout" = Some (JStr "lint ok") ∧
  build_output !! "stdout" = Some (JStr "lint ok").
Proof. split_and!; reflexivity. Qed.

(** C4, as the code has it, on the same call. *)
Lemma input_data_wins_on_conflict_witness :
  merged_input_first previous_output AndroidNode_keys (createSuccessResult build_output).
Proof.
  apply (input_data_wins_on_conflict
           no_text seconds_to_ms home last_part shell
           agent_ready send_refused agent_ready upload_ok offline_ticket offline_search
           android_build previous_output tt tt (createSuccessResult build_output)).
  - reflexivity.
  - reflexivity.
Defined.



(** C8 on the Jira workflow of the factory, whose node carries a [jiraApi]
    credential, and on a Jira node constructed without credentials. *)
Lemma credentials_are_node_level_witness :
  ((∀ n creds, EvNew n creds ∈ trace jira_run.2 ∨
               (∃ e, EvNewThrew n creds e ∈ trace jira_run.2) →
               creds = default ∅ (node_credentials n)) ∧
   (∀ n given outcome,
      EvExecute n given outcome ∈ trace jira_run.2 →
      ∃ cls, nodeRegistry default_engine !! node_type n = Some cls ∧
             calls cls n given outcome)) ∧
  JiraNode_execute no_text offline_ticket offline_search jira_without_credentials ∅ tt
  = (Normal (createErrorResult "Required credential 'jiraApi' is missing"), tt).
Proof.
  pose proof (credentials_are_node_level clock0 no_text last_part
                agent_ready send_refused agent_ready upload_ok
                offline_ticket offline_search) as (Hrun & _ & Hnode & _).
  split.
  - apply (Hrun default_engine (createJiraWorkflow ∅ "PROJ-1") 1%nat x1 s0
             jira_run.1 jira_run.2 (trace jira_run.2)); reflexivity.
  - apply (Hnode jira_without_credentials ∅ tt "jiraApi").
    + reflexivity.
    + by constructor.
Defined.

End Scenarios.
(** * Further properties of the code *)

(** ** nodes/BaseNode.ts *)

Lemma truthy_js_get (o : gmap string JSValue) k :
  truthy (js_get o k) = true ↔ has_truthy o k.
Proof.
  unfold js_get, has_truthy. destruct (o !! k) as [v|].
  - split; [intros Hv; left; by exists v | by intros [(v' & [= <-] & ?)|[? _]]].
  - destruct (inherited k); simpl.
    + split; [by right | done].
    + split; [done | by intros [(? & ? & _)|[_ ?]]].
Qed.

Lemma validateRequiredParameters_all self requiredParams :
  validateRequiredParameters self requiredParams = Normal tt ↔
  ∀ p, p ∈ requiredParams → truthy (js_get (node_parameters (this_node self)) p) = true.
Proof.
  induction requiredParams as [|p rest IH]; simpl.
  - split; [intros _ p Hp; by apply elem_of_nil in Hp | done].
  - destruct (truthy (js_get (node_parameters (this_node self)) p)) eqn:Hp; simpl.
    + rewrite IH. split.
      * intros H q [->|?]%elem_of_cons; auto.
      * intros H q ?. apply H. by constructor.
    + split; [done|]. intros H. specialize (H p (list_elem_of_here _ _)). congruence.
Qed.

Lemma validateRequiredParameters_first self pre p post :
  (∀ q, q ∈ pre → truthy (js_get (node_parameters (this_node self)) q) = true) →
  truthy (js_get (node_parameters (this_node self)) p) = false →
  validateRequiredParameters self (pre ++ p :: post)
  = Throw (ErrorObj ("Required parameter '" +:+ p +:+ "' is missing")).
Proof.
  intros Hpre Hp. induction pre as [|q pre IH]; simpl.
  - by rewrite Hp.
  - rewrite (Hpre q (list_elem_of_here _ _)). simpl. apply IH.
    intros r ?. apply Hpre. by constructor.
Qed.

(** X1. [validateRequiredParameters] returns normally exactly when the
    parameter bag reads as truthy under every required name (so also on an
    empty list), and otherwise throws an error that names the first required
    name, in the order of the list, under which it does not. A name the bag
    does not set counts as present when [Object.prototype] has it. *)
Theorem validateRequiredParameters_spec (self : BaseNode) (requiredParams : list string) :
  (validateRequiredParameters self requiredParams = Normal tt ↔
   ∀ p, p ∈ requiredParams → has_truthy (node_parameters (this_node self)) p) ∧
  (∀ pre p post,
     requiredParams = pre ++ p :: post →
     (∀ q, q ∈ pre → has_truthy (node_parameters (this_node self)) q) →
     ¬ has_truthy (node_parameters (this_node self)) p →
     validateRequiredParameters self requiredParams
     = Throw (ErrorObj ("Required parameter '" +:+ p +:+ "' is missing"))) ∧
  (∀ p, node_parameters (this_node self) !! p = None →
        (validateRequiredParameters self [p] = Normal tt ↔ inherited p = true)).
Proof.
  split_and!.
  - rewrite validateRequiredParameters_all.
    split; intros H p Hp; apply truthy_js_get; auto.
  - intros pre p post -> Hpre Hp. apply validateRequiredParameters_first.
    + intros q Hq. apply truthy_js_get; auto.
    + rewrite <- truthy_js_get in Hp. by destruct (truthy _).
  - intros p Hp. simpl. unfold js_get. rewrite Hp.
    by destruct (inherited p).
Qed.

Lemma validateRequiredCredentials_all self requiredCreds :
  validateRequiredCredentials self requiredCreds = Normal tt ↔
  ∀ c, c ∈ requiredCreds → truthy (getCredential self c) = true.
Proof.
  unfold getCredential. induction requiredCreds as [|c rest IH]; simpl.
  - split; [intros _ c Hc; by apply elem_of_nil in Hc | done].
  - destruct (truthy (js_get (this_credentials self) c)) eqn:Hc; simpl.
    + rewrite IH. split.
      * intros H q [->|?]%elem_of_cons; auto.
      * intros H q ?. apply H. by constructor.
    + split; [done|]. intros H. specialize (H c (list_elem_of_here _ _)). congruence.
Qed.

Lemma validateRequiredCredentials_first self pre c post :
  (∀ q, q ∈ pre → truthy (getCredential self q) = true) →
  truthy (getCredential self c) = false →
  validateRequiredCredentials self (pre ++ c :: post)
  = Throw (ErrorObj (missing_credential c)).
Proof.
  unfold getCredential. intros Hpre Hc. induction pre as [|q pre IH]; simpl.
  - by rewrite Hc.
  - rewrite (Hpre q (list_elem_of_here _ _)). simpl. apply IH.
    intros r ?. apply Hpre. by constructor.
Qed.

(** X2. [validateRequiredCredentials] returns normally exactly when the
    credentials bag reads as truthy under every required name, and otherwise
    the error it throws names the first one, in the order of the list, under
    which it does not: later missing credentials are not reported. A name
    the bag does not set counts as present when [Object.prototype] has it. *)
Theorem validateRequiredCredentials_spec (self : BaseNode) (requiredCreds : list string) :
  (validateRequiredCredentials self requiredCreds = Normal tt ↔
   ∀ c, c ∈ requiredCreds → has_truthy (this_credentials self) c) ∧
  (∀ pre c post,
     requiredCreds = pre ++ c :: post →
     (∀ q, q ∈ pre → has_truthy (this_credentials self) q) →
     ¬ has_truthy (this_credentials self) c →
     validateRequiredCredentials self requiredCreds
     = Throw (ErrorObj (missing_credential c))) ∧
  (∀ c, this_credentials self !! c = None →
        (validateRequiredCredentials self [c] = Normal tt ↔ inherited c = true)).
Proof.
  split_and!.
  - rewrite validateRequiredCredentials_all. unfold getCredential.
    split; intros H c Hc; apply truthy_js_get; auto.
  - intros pre c post -> Hpre Hc. apply validateRequiredCredentials_first.
    + intros q Hq. apply truthy_js_get; auto.
    + unfold getCredential. rewrite <- truthy_js_get in Hc. by destruct (truthy _).
  - intros c Hc. simpl. unfold js_get. rewrite Hc.
    by destruct (inherited c).
Qed.

(** X3. [getParameter] falls back on the default exactly when the parameter
    reads as [undefined] or [null]: set to one of them, or not set under a
    name that [Object.prototype] does not have. Under a name it has, a
    parameter that is not set reads as the inherited value. A parameter set
    to a falsy value such as 0, [false] or the empty string is returned as it
    is, although [validateRequiredParameters] counts that same parameter as
    missing. *)
Theorem getParameter_keeps_falsy_values (self : BaseNode) (name : string)
        (defaultValue : JSValue) :
  ((node_parameters (this_node self) !! name = None ∧ inherited name = false) ∨
   node_parameters (this_node self) !! name = Some JUndefined ∨
   node_parameters (this_node self) !! name = Some JNull →
   getParameter self name defaultValue = defaultValue) ∧
  (node_parameters (this_node self) !! name = None → inherited name = true →
   getParameter self name defaultValue = JInherited name) ∧
  (∀ v, node_parameters (this_node self) !! name = Some v →
        v ≠ JUndefined → v ≠ JNull →
        getParameter self name defaultValue = v ∧
        (truthy v = false →
         validateRequiredParameters self [name]
         = Throw (ErrorObj ("Required parameter '" +:+ name +:+ "' is missing")))).
Proof.
  unfold getParameter, js_get. split_and!.
  - by intros [[-> ->]|[->| ->]].
  - by intros -> ->.
  - intros v Hv Hu Hn. split; [rewrite Hv; by destruct v|].
    intros Hfalsy. simpl. unfold js_get. rewrite Hv. simpl. by rewrite Hfalsy.
Qed.

(** ** engine/WorkflowEngine.ts: the registry *)

Section RegistryFacts.
Context {World : Type}.
Variable clock : World → Z.

Lemma elem_of_getAvailableNodes (eng : @WorkflowEngine World) x :
  x ∈ getAvailableNodes eng ↔ is_Some (nodeRegistry eng !! x).
Proof. apply elem_of_Map_keys. Qed.

(** X4. Registering a node type makes it the one the registry resolves the
    name to and leaves every other name alone; registering a name again
    silently replaces the earlier class; and the list of available node types
    holds every registered name once, in the order of first registration: a
    name registered again keeps its place, a new name comes last. *)
Theorem registerNode_overwrites (eng : @WorkflowEngine World) (type : string)
        (cls cls1 cls2 : NodeClass) :
  nodeRegistry (registerNode type cls eng) !! type = Some cls ∧
  (∀ other, other ≠ type →
            nodeRegistry (registerNode type cls eng) !! other
            = nodeRegistry eng !! other) ∧
  registerNode type cls2 (registerNode type cls1 eng) = registerNode type cls2 eng ∧
  (∀ x, x ∈ getAvailableNodes (registerNode type cls eng) ↔
        x = type ∨ x ∈ getAvailableNodes eng) ∧
  NoDup (getAvailableNodes (registerNode type cls eng)) ∧
  (∀ x, x ∈ getAvailableNodes eng ↔ is_Some (nodeRegistry eng !! x)) ∧
  (type ∈ getAvailableNodes eng →
   getAvailableNodes (registerNode type cls eng) = getAvailableNodes eng) ∧
  (type ∉ getAvailableNodes eng →
   getAvailableNodes (registerNode type cls eng) = getAvailableNodes eng ++ [type]).
Proof.
  unfold registerNode; cbn [nodeRegistry]. split_and!.
  - apply Map_lookup_set_eq.
  - intros other Hne. by apply Map_lookup_set_ne.
  - by rewrite Map_set_set.
  - intros x. rewrite !elem_of_getAvailableNodes. cbn [nodeRegistry].
    destruct (decide (x = type)) as [->|Hne].
    + rewrite Map_lookup_set_eq. split; [by left | by eexists].
    + rewrite Map_lookup_set_ne by done. split; [by right | by intros [?|?]].
  - apply NoDup_Map_keys.
  - intros x. apply elem_of_Map_keys.
  - intros Hin. unfold getAvailableNodes; cbn [nodeRegistry]. rewrite Map_keys_set.
    by destruct (decide (type ∈ Map_keys (nodeRegistry eng))).
  - intros Hnot. unfold getAvailableNodes; cbn [nodeRegistry]. rewrite Map_keys_set.
    by destruct (decide (type ∈ Map_keys (nodeRegistry eng))).
Qed.

Lemma run_of_unknown_type (eng : @WorkflowEngine World) wf start fuel input s :
  findStartNode wf = Some start →
  nodeRegistry eng !! node_type start = None →
  executeWorkflow clock (S fuel) eng wf input s
  = (Finished (Normal (failed_execution (clock (world s)) (clock (world s)) input
                         ("Unknown node type: " +:+ node_type start))), s).
Proof.
  intros Hstart Hreg. rewrite executeWorkflow_cases, Hstart. cbv zeta.
  by rewrite executeNodeChain_step, Hreg.
Qed.

End RegistryFacts.

(** ** engine/WorkflowEngine.ts: how data and nodes move through a run *)

Section RunMore.
Context {World : Type}.
Variable clock : World → Z.
Variable eng : @WorkflowEngine World.
Variable wf : WorkflowDefinition.

(** X5. Data is threaded through the chain: the first node executed is the
    start node and receives the input data of the call, and every later node
    receives exactly the data of the result of the node before it (the empty
    bag when that result has no data), which has succeeded. *)
Theorem data_is_threaded (fuel : nat) (input : WorkflowData) (s s' : St)
        (r : Run WorkflowExecution) (tr : list Event) :
  executeWorkflow clock fuel eng wf input s = (r, s') →
  trace s' = trace s ++ tr →
  (∀ m given o, executions tr !! 0%nat = Some (m, given, o) →
                findStartNode wf = Some m ∧ given = input) ∧
  (∀ i m given o m' given' o',
     executions tr !! i = Some (m, given, o) →
     executions tr !! S i = Some (m', given', o') →
     ∃ result, o = Normal result ∧ res_success result = true ∧
               given' = default ∅ (res_data result)).
Proof.
  intros Hrun Htr.
  pose proof (executeWorkflow_run _ _ _ _ _ _ _ _ _ Hrun Htr) as Hch.
  destruct (findStartNode wf) as [startNode|].
  - destruct Hch as (walk & Hch & _).
    destruct (chain_run_threading _ _ _ _ _ _ Hch) as [Hfirst Hlater]. split.
    + intros m given o H0. by destruct (Hfirst _ _ _ H0) as [-> ->].
    + intros i m given o m' given' o' Hi HSi.
      destruct (Hlater _ _ _ _ _ _ _ Hi HSi) as (result & ? & ? & _ & ?). eauto.
  - subst tr. split; [by intros ??? | by intros ???????].
Qed.

(** X6. A run that returns status [success] has executed at least one node,
    every node it executed has succeeded, the last one has no connection
    target that names a node, and the data of the record is the data of that
    last result (the empty bag when it has none); the record has no error. *)
Theorem successful_run_shape (fuel : nat) (input : WorkflowData) (s s' : St)
        (exec : WorkflowExecution) (tr : list Event) :
  executeWorkflow clock fuel eng wf input s = (Finished (Normal exec), s') →
  trace s' = trace s ++ tr →
  ex_status exec = success →
  ex_error exec = None ∧
  (∀ m given o, (m, given, o) ∈ executions tr →
                ∃ result, o = Normal result ∧ res_success result = true) ∧
  ∃ m given result,
    last (executions tr) = Some (m, given, Normal result) ∧
    ex_data exec = default ∅ (res_data result) ∧
    getNextNodes wf (node_id m) = Normal [].
Proof.
  intros Hrun Htr Hok.
  pose proof (executeWorkflow_run _ _ _ _ _ _ _ _ _ Hrun Htr) as Hch.
  rewrite executeWorkflow_cases in Hrun.
  destruct (findStartNode wf) as [startNode|].
  - destruct Hch as (walk & Hch & Hrep).
    destruct walk as [[out|e]|]; simpl in Hrep.
    + destruct Hrep as (t0 & t1 & [= ->]). split; [done|].
      by apply (chain_run_success eng wf startNode input).
    + destruct (describe e); [|done].
      destruct Hrep as (t0 & t1 & data & [= ->]). discriminate Hok.
    + done.
  - injection Hrun as <- <-. discriminate Hok.
Qed.

(** X7. Every node a run instantiates or executes is a node of the
    definition, and the first one in declaration order with its id: a node
    whose id repeats the id of an earlier node is never run. *)
Theorem run_nodes_are_first_with_their_id (fuel : nat) (input : WorkflowData)
        (s s' : St) (r : Run WorkflowExecution) (tr : list Event) (m : WorkflowNode) :
  executeWorkflow clock fuel eng wf input s = (r, s') →
  trace s' = trace s ++ tr →
  m ∈ instantiated tr ∨ m ∈ executed tr →
  m ∈ nodes wf ∧
  find (fun x => bool_decide (node_id x = node_id m)) (nodes wf) = Some m ∧
  ∀ pre post, nodes wf = pre ++ m :: post → m ∉ pre →
              ∀ x, x ∈ pre → node_id x ≠ node_id m.
Proof.
  intros Hrun Htr Hm.
  pose proof (executeWorkflow_run _ _ _ _ _ _ _ _ _ Hrun Htr) as Hch.
  destruct (findStartNode wf) as [startNode|] eqn:Hstart.
  - destruct Hch as (walk & Hch & _).
    assert (m ∈ instantiated tr) as Hin.
    { destruct Hm as [?|Hm]; [done|].
      by rewrite <- (proj1 (chain_run_path _ _ _ _ _ _ Hch)). }
    destruct (chain_run_members _ _ _ _ _ _ Hch
                (start_node_is_first_with_its_id _ _ Hstart) m Hin) as [Hmem Hfind].
    split_and!; try done. intros pre post Heq Hnot x Hx Hid.
    rewrite Heq in Hfind. clear Heq. induction pre as [|y pre IH]; simpl in Hfind.
    + by apply elem_of_nil in Hx.
    + destruct (bool_decide (node_id y = node_id m)) eqn:Hy.
      * injection Hfind as ->. apply Hnot. by constructor.
      * apply elem_of_cons in Hx as [->|Hx].
        { apply bool_decide_eq_false in Hy. done. }
        apply IH; try done. intros ?. apply Hnot. by constructor.
  - subst tr. destruct Hm as [Hm|Hm]; by apply elem_of_nil in Hm.
Qed.

Lemma getNextNodes_no_connections i next :
  no_connections wf → getNextNodes wf i = Normal next → next = [].
Proof.
  intros Hno Hnext. rewrite (getNextNodes_resolve _ _ _ Hnext).
  destruct (connections wf !! i) as [conns|] eqn:Hc; [|done].
  by rewrite (Hno _ _ Hc).
Qed.

Lemma findStartNode_no_connections :
  no_connections wf → findStartNode wf = head (nodes wf).
Proof.
  intros Hno. unfold findStartNode.
  assert (∀ i, i ∉ connectedNodes wf) as Hnone.
  { intros i (k & conns & c & Hk & Hc & _)%elem_of_connectedNodes.
    rewrite (Hno _ _ Hk) in Hc. by apply elem_of_nil in Hc. }
  destruct (nodes wf) as [|n rest]; [done|]. simpl.
  destruct (decide (node_id n ∈ connectedNodes wf)) as [Hin|]; [|done].
  by apply Hnone in Hin.
Qed.

Lemma lone_run (fuel : nat) (input : WorkflowData) (s : St) :
  no_connections wf →
  (nodes wf = [] →
   executeWorkflow clock fuel eng wf input s
   = (Finished (Normal (failed_execution (clock (world s)) (clock (world s)) input
                          "No start node found in workflow")), s)) ∧
  (∀ first rest,
     nodes wf = first :: rest →
     ∃ c s' tr,
       executeWorkflow clock (S fuel) eng wf input s = (Finished c, s') ∧
       trace s' = trace s ++ tr ∧
       executed tr = instantiated tr ∧
       (instantiated tr = [] ∨ instantiated tr = [first])).
Proof.
  intros Hno. pose proof (findStartNode_no_connections Hno) as Hstart. split.
  - intros Hnil. rewrite Hnil in Hstart. by rewrite executeWorkflow_cases, Hstart.
  - intros first rest Hnodes. rewrite Hnodes in Hstart. simpl in Hstart.
    rewrite executeWorkflow_cases, Hstart. cbv zeta. rewrite executeNodeChain_step.
    destruct (nodeRegistry eng !! node_type first) as [cls|].
    2:{ eexists _, _, []. split_and!; [done | by rewrite app_nil_r | done | by left]. }
    cbv zeta.
    destruct (construct cls _ _ _) as [[this|e] w0]; cbn [fst snd].
    2:{ destruct (describe e); eexists _, _, [_]; split_and!;
          [done | done | done | by left | done | done | done | by left]. }
    destruct (execute_method cls _ _ _ _) as [[[result|e] h'] w']; cbn [fst snd].
    2:{ destruct (describe e); eexists _, _, [_; _]; split_and!;
          [done | simpl; by rewrite <- app_assoc | done | by right
          |done | simpl; by rewrite <- app_assoc | done | by right]. }
    destruct (res_success result).
    2:{ eexists _, _, [_; _]. split_and!;
          [done | simpl; by rewrite <- app_assoc | done | by right]. }
    destruct (getNextNodes wf (node_id first)) as [next|e] eqn:Hnext.
    + rewrite (getNextNodes_no_connections _ _ Hno Hnext).
      eexists _, _, [_; _]. split_and!;
        [done | simpl; by rewrite <- app_assoc | done | by right].
    + apply getNextNodes_throws in Hnext as (_ & _ & ->).
      eexists _, _, [_; _]. split_and!;
        [done | simpl; by rewrite <- app_assoc | done | by right].
Qed.

(** X8. In a definition where no node has an outgoing connection, a run
    never gets past the first declared node: without nodes it reports that
    there is no start node, and otherwise it finishes, on the first call of
    the chain walker, having instantiated and executed at most that first
    node, whatever the number of nodes declared after it. *)
Theorem run_without_connections (fuel : nat) (input : WorkflowData) (s : St) :
  no_connections wf →
  (nodes wf = [] →
   executeWorkflow clock fuel eng wf input s
   = (Finished (Normal (failed_execution (clock (world s)) (clock (world s)) input
                          "No start node found in workflow")), s)) ∧
  (∀ first rest,
     nodes wf = first :: rest →
     ∃ c s' tr,
       executeWorkflow clock (S fuel) eng wf input s = (Finished c, s') ∧
       trace s' = trace s ++ tr ∧
       executed tr = instantiated tr ∧
       (instantiated tr = [] ∨ instantiated tr = [first])).
Proof. apply lone_run. Qed.

End RunMore.
(** ** The built-in node types: what their [execute] never does *)

Lemma well_formed_success (data : gmap string JSValue) :
  well_formed_result (createSuccessResult data).
Proof. split; [by eexists | done]. Qed.

Lemma well_formed_error msg :
  well_formed_result (createErrorResult (Data:=gmap string JSValue) msg).
Proof. split; [done | by eexists]. Qed.

Lemma subseteq_spread_after (own inputData : gmap string JSValue) :
  inputData ⊆ spread_after own inputData.
Proof. apply map_union_subseteq_l. Qed.

Lemma by_value_never_throws {World} (method : @Method World) :
  (∀ self input w, ∃ result w',
      method self input w = (Normal result, w') ∧ well_formed_result result) →
  never_throws (by_value method).
Proof.
  intros Hmethod. split; [intros n creds w; by eexists _, _|].
  intros self r h w.
  destruct (Hmethod self (deref h r) w) as ([ok data err] & w' & Hm & Hwf).
  unfold by_value; cbn [execute_method]. rewrite Hm. cbn [res_data].
  unfold well_formed_result in Hwf. simpl in Hwf.
  destruct data as [data|]; eexists _, _, _; (split; [reflexivity|]);
    unfold well_formed_result, seen; simpl; destruct ok; try done.
  - destruct Hwf as [_ ->]. split; [by eexists | done].
  - by destruct Hwf.
Qed.

Lemma by_value_passes_input_through {World} (method : @Method World) :
  (∀ self input w result w',
      method self input w = (Normal result, w') → res_success result = true →
      ∃ data, res_data result = Some data ∧ input ⊆ data) →
  passes_input_through (by_value method).
Proof.
  intros Hmethod self r h w result h' w'. unfold by_value; cbn [execute_method].
  destruct (method self (deref h r) w) as [[shown_result|e] w1] eqn:Hm; [|done].
  destruct (res_data shown_result) as [data|] eqn:Hdata.
  - intros [= <- <- _] Hok. cbn [res_success res_data] in *.
    destruct (Hmethod _ _ _ _ _ Hm Hok) as (data' & Hdata' & Hsub).
    rewrite Hdata in Hdata'. injection Hdata' as <-.
    eexists. split; [done|]. by rewrite deref_new.
  - intros [= <- <- _] Hok. cbn [res_success res_data] in *.
    destruct (Hmethod _ _ _ _ _ Hm Hok) as (data' & Hdata' & _).
    rewrite Hdata in Hdata'. discriminate Hdata'.
Qed.

Section BuiltinFacts.
Context {World : Type}.
Variable clock : World → Z.
Variable String_ : JSValue → Completion string.
Variable times1000 : JSValue → Completion JSValue.
Variable cwd : World → Completion JSValue.
Variable basename : JSValue → Completion string.
Variable execAsync :
  JSValue → JSValue → JSValue → World → Completion (JSValue * JSValue) * World.
Variable loadGoogleChatAgent : World → Completion unit * World.
Variable sendMessageToSpace :
  JSValue → JSValue → JSValue → World → Completion ChatResponse * World.
Variable loadGoogleDriveAgent : World → Completion unit * World.
Variable uploadFile :
  JSValue → JSValue → JSValue → World → Completion JSValue * World.
Variable fetchTicket :
  BaseNode → JSValue → JSValue → JSValue → World → Completion JSValue * World.
Variable fetchSearch :
  BaseNode → JSValue → JSValue → World → Completion (JSValue * JSValue) * World.

Local Abbreviation Android := (AndroidNode times1000 cwd execAsync).
Local Abbreviation GoogleChat :=
  (GoogleChatNode String_ loadGoogleChatAgent sendMessageToSpace).
Local Abbreviation GoogleDrive :=
  (GoogleDriveNode String_ basename loadGoogleDriveAgent uploadFile).
Local Abbreviation Jira := (JiraNode String_ fetchTicket fetchSearch).

Local Abbreviation Android_execute := (AndroidNode_execute times1000 cwd execAsync).
Local Abbreviation GoogleChat_execute :=
  (GoogleChatNode_execute String_ loadGoogleChatAgent sendMessageToSpace).
Local Abbreviation GoogleDrive_execute :=
  (GoogleDriveNode_execute String_ basename loadGoogleDriveAgent uploadFile).
Local Abbreviation Jira_execute := (JiraNode_execute String_ fetchTicket fetchSearch).

Ltac unfold_methods :=
  unfold AndroidNode_execute, GoogleChatNode_execute, GoogleChatNode_sendMessage,
    GoogleDriveNode_execute, GoogleDriveNode_uploadFileWithAgent,
    JiraNode_execute, JiraNode_getTicket, JiraNode_searchTickets,
    unknown_operation, catch_to_result;
  cbv zeta.

Lemma builtin_methods_resolve :
  let resolves (method : @Method World) :=
    ∀ self input w, ∃ result w',
      method self input w = (Normal result, w') ∧ well_formed_result result in
  resolves Android_execute ∧ resolves GoogleChat_execute ∧
  resolves GoogleDrive_execute ∧ resolves Jira_execute.
Proof.
  cbv zeta. split_and!; intros self input w; unfold_methods; repeat case_match;
    simplify_eq; eexists _, _; (split; [reflexivity|]);
    first [apply well_formed_success | apply well_formed_error].
Qed.

Lemma builtin_nodes_resolve :
  never_throws Android ∧ never_throws GoogleChat ∧
  never_throws GoogleDrive ∧ never_throws Jira.
Proof.
  destruct builtin_methods_resolve as (? & ? & ? & ?).
  split_and!; by apply by_value_never_throws.
Qed.

(** X9. The [execute] of each built-in node type never throws, and neither
    does the constructor it inherits: whatever the parameters, the
    credentials, the input data and the behaviour of the shell, of the
    agents and of the network, [execute] resolves to a result, which is a
    success with data and without error or a failure with an error string
    and without data. *)
Theorem builtin_nodes_never_throw :
  never_throws Android ∧ never_throws GoogleChat ∧
  never_throws GoogleDrive ∧ never_throws Jira.
Proof. exact builtin_nodes_resolve. Qed.

Lemma builtin_nodes_pass_input_through :
  passes_input_through Android ∧ passes_input_through GoogleChat ∧
  passes_input_through GoogleDrive ∧ passes_input_through Jira.
Proof.
  split_and!; apply by_value_passes_input_through;
    intros self input w result w'; unfold_methods; intros Hm Hok;
    repeat case_match; simplify_eq; try discriminate Hok;
    (eexists; split; [reflexivity | apply subseteq_spread_after]).
Qed.

(** X10. Each built-in node type checks its parameters before it touches the
    outside world. An Android node without a command fails with "Command is
    required" and leaves the world as it was, provided the two values it
    computes before that check can be had: the project path, or else the
    working directory, and the timeout in milliseconds; when [process.cwd()]
    or the multiplication throws, it fails with that error instead. A Google
    Chat node without a space id, a Jira node without a ticket key or, for a
    search, without a query fail with the matching message and leave the
    world as it was, and so does a Jira node with an operation it does not
    know, with "Unknown operation: " and the text of the operation, or the
    error of asking for that text. A Google Chat node without a message text
    and a Google Drive node without a file path fail after loading their
    agent, without sending or uploading anything, and so does a Google Drive
    node without a file name whose file path is no string, with the error of
    [path.basename]. *)
Theorem validation_precedes_io (self : BaseNode) (inputData : WorkflowData) (w : World) :
  (truthy (getParameter self "command" JUndefined) = false →
   (truthy (getParameter self "projectPath" JUndefined) = true ∨
    (∃ directory, cwd w = Normal directory) →
    (∃ timeout, times1000 (getParameter self "timeout" (JNum 300)) = Normal timeout) →
    Android_execute self inputData w
    = (Normal (createErrorResult "Command is required"), w)) ∧
   (∀ e, truthy (getParameter self "projectPath" JUndefined) = false →
         cwd w = Throw e →
         Android_execute self inputData w
         = (Normal (createErrorResult (error_message e)), w)) ∧
   (∀ e, truthy (getParameter self "projectPath" JUndefined) = true ∨
         (∃ directory, cwd w = Normal directory) →
         times1000 (getParameter self "timeout" (JNum 300)) = Throw e →
         Android_execute self inputData w
         = (Normal (createErrorResult (error_message e)), w))) ∧
  (validateRequiredCredentials self ["googleChatServiceAccount"] = Normal tt →
   (truthy (getParameter self "spaceId" JUndefined) = false →
    GoogleChat_execute self inputData w
    = (Normal (createErrorResult "Space ID is required"), w)) ∧
   (∀ w1, truthy (getParameter self "spaceId" JUndefined) = true →
          loadGoogleChatAgent w = (Normal tt, w1) →
          is_string (getParameter self "operation" (JStr "sendMessage")) "sendMessage"
          = true →
          truthy (getParameter self "messageText" JUndefined) = false →
          GoogleChat_execute self inputData w
          = (Normal (createErrorResult
                       "Message text is required for sendMessage operation"), w1))) ∧
  (validateRequiredCredentials self ["googleDriveServiceAccount"] = Normal tt →
   ∀ w1, loadGoogleDriveAgent w = (Normal tt, w1) →
         is_string (getParameter self "operation" (JStr "uploadFile")) "uploadFile"
         = true →
         (truthy (getParameter self "filePath" JUndefined) = false →
          GoogleDrive_execute self inputData w
          = (Normal (createErrorResult "File path is required for upload operation"),
             w1)) ∧
         (∀ e, truthy (getParameter self "filePath" JUndefined) = true →
               truthy (getParameter self "fileName" JUndefined) = false →
               basename (getParameter self "filePath" JUndefined) = Throw e →
               GoogleDrive_execute self inputData w
               = (Normal (createErrorResult (error_message e)), w1))) ∧
  (validateRequiredCredentials self ["jiraApi"] = Normal tt →
   (is_string (getParameter self "operation" (JStr "getTicket")) "getTicket" = true →
    truthy (getParameter self "ticketKey" JUndefined) = false →
    Jira_execute self inputData w
    = (Normal (createErrorResult "Ticket key is required"), w)) ∧
   (is_string (getParameter self "operation" (JStr "getTicket")) "getTicket" = false →
    is_string (getParameter self "operation" (JStr "getTicket")) "searchTickets" = true →
    truthy (getParameter self "searchQuery" JUndefined) = false →
    Jira_execute self inputData w
    = (Normal (createErrorResult "Search query is required"), w)) ∧
   (is_string (getParameter self "operation" (JStr "getTicket")) "getTicket" = false →
    is_string (getParameter self "operation" (JStr "getTicket")) "searchTickets" = false →
    Jira_execute self inputData w
    = (Normal (createErrorResult
                 (match template String_ (getParameter self "operation" (JStr "getTicket"))
                  with
                  | Normal text => "Unknown operation: " +:+ text
                  | Throw e => error_message e
                  end)),
       w))).
Proof.
  assert (truthy (getParameter self "projectPath" JUndefined) = true ∨
          (∃ directory, cwd w = Normal directory) →
          ∃ projectPath,
            (if truthy (getParameter self "projectPath" JUndefined)
             then Normal (getParameter self "projectPath" JUndefined) else cwd w)
            = Normal projectPath) as Hpath.
  { intros [Hp|[directory Hcwd]].
    - rewrite Hp. by eexists.
    - rewrite Hcwd. destruct (truthy _); by eexists. }
  split_and!.
  - intros Hc. split_and!.
    + intros Hor [timeout Ht]. unfold_methods.
      destruct (Hpath Hor) as [projectPath ->]. by rewrite Ht, Hc.
    + intros e Hp Hcwd. unfold_methods. by rewrite Hp, Hcwd.
    + intros e Hor Ht. unfold_methods.
      destruct (Hpath Hor) as [projectPath ->]. by rewrite Ht.
  - intros Hv. split.
    + intros Hsp. unfold_methods. by rewrite Hv, Hsp.
    + intros w1 Hsp Hload Hop Hmsg. unfold_methods.
      by rewrite Hv, Hsp, Hload, Hop, Hmsg.
  - intros Hv w1 Hload Hop. split.
    + intros Hfile. unfold_methods. by rewrite Hv, Hload, Hop, Hfile.
    + intros e Hfile Hname Hbase. unfold_methods.
      by rewrite Hv, Hload, Hop, Hfile, Hname, Hbase.
  - intros Hv. split_and!.
    + intros Hop Hkey. unfold_methods. by rewrite Hv, Hop, Hkey.
    + intros Hop1 Hop2 Hq. unfold_methods. by rewrite Hv, Hop1, Hop2, Hq.
    + intros Hop1 Hop2. unfold_methods. rewrite Hv, Hop1, Hop2.
      by destruct (template String_ _).
Qed.

End BuiltinFacts.

(** ** Runs over node types that behave like the built-in ones *)

Section WellBehaved.
Context {World : Type}.
Variable clock : World → Z.
Variable eng : @WorkflowEngine World.
Variable wf : WorkflowDefinition.

Lemma chain_keeps_input :
  (∀ t cls, nodeRegistry eng !! t = Some cls → passes_input_through cls) →
  ∀ fuel n r m out m',
    executeNodeChain fuel eng wf n r m = (Finished (Normal out), m') →
    deref (heap m) r ⊆ deref (heap m') out.
Proof.
  intros Hpass. induction fuel as [|fuel IH]; intros n r m out m'; [done|].
  rewrite executeNodeChain_step.
  destruct (nodeRegistry eng !! node_type n) as [cls|] eqn:Hreg; [|done]. cbv zeta.
  destruct (construct cls n _ (world (state m))) as [[this|e] w0]; cbn [fst snd];
    [|done].
  destruct (execute_method cls this r (heap m) w0)
    as [[[result|e] h'] w'] eqn:Hex; cbn [fst snd heap state]; [|done].
  destruct (res_success result) eqn:Hok; [|done].
  destruct (Hpass _ _ Hreg _ _ _ _ _ _ _ Hex Hok) as (data & Hdata & Hsub).
  unfold or_empty. rewrite Hdata. cbn [fst snd].
  destruct (getNextNodes wf (node_id n)) as [[|nextNode others]|e]; [| |done].
  - by intros [= <- <-].
  - intros Hrest. etrans; [exact Hsub|]. by apply (IH _ _ _ _ _ Hrest).
Qed.

Lemma executeWorkflow_extends fuel input s r s' :
  executeWorkflow clock fuel eng wf input s = (r, s') →
  ∃ tr, trace s' = trace s ++ tr.
Proof.
  rewrite executeWorkflow_cases. destruct (findStartNode wf) as [startNode|].
  - cbv zeta.
    destruct (executeNodeChain_run eng wf fuel startNode 0 {| state := s; heap := [input] |})
      as (tr & Htr & _).
    destruct (executeNodeChain fuel eng wf startNode 0 _) as [[[?|e]|] m']; simpl in *;
      [| destruct (describe e) |]; intros [= _ <-]; by exists tr.
  - intros [= _ <-]. exists []. by rewrite app_nil_r.
Qed.

Lemma chain_run_never_throws n input r tr ev e :
  (∀ t cls, nodeRegistry eng !! t = Some cls → never_throws cls) →
  chain_run eng wf n input r tr →
  ev ∈ tr → ¬ threw ev e.
Proof.
  intros Hnever Hch Hin Hthrew.
  destruct ev as [| m creds e0 | m given [result|e0]]; simpl in Hthrew; try done;
    subst e0.
  - destruct (chain_run_unbuilt _ _ _ _ _ _ _ _ _ Hch Hin)
      as (_ & (cls & Hcls & w & w' & Hnew) & _).
    destruct (proj1 (Hnever _ _ Hcls) m (default ∅ (node_credentials m)) w)
      as (this & w1 & Hnew').
    rewrite Hnew' in Hnew. discriminate Hnew.
  - destruct (chain_run_calls _ _ _ _ _ _ _ _ _ Hch Hin)
      as (cls & Hcls & w0 & this & r0 & h & w & o & h' & w' & _ & _ & Hex & Ho).
    destruct (proj2 (Hnever _ _ Hcls) this r0 h w) as (result & h1 & w1 & Hex' & _).
    rewrite Hex' in Hex. by injection Hex as <- _ _.
Qed.

End WellBehaved.

Section BuiltinRuns.
Context {World : Type}.
Variable clock : World → Z.
Variable String_ : JSValue → Completion string.
Variable times1000 : JSValue → Completion JSValue.
Variable cwd : World → Completion JSValue.
Variable basename : JSValue → Completion string.
Variable execAsync :
  JSValue → JSValue → JSValue → World → Completion (JSValue * JSValue) * World.
Variable loadGoogleChatAgent : World → Completion unit * World.
Variable sendMessageToSpace :
  JSValue → JSValue → JSValue → World → Completion ChatResponse * World.
Variable loadGoogleDriveAgent : World → Completion unit * World.
Variable uploadFile :
  JSValue → JSValue → JSValue → World → Completion JSValue * World.
Variable fetchTicket :
  BaseNode → JSValue → JSValue → JSValue → World → Completion JSValue * World.
Variable fetchSearch :
  BaseNode → JSValue → JSValue → World → Completion (JSValue * JSValue) * World.

Local Abbreviation Android := (AndroidNode times1000 cwd execAsync).
Local Abbreviation GoogleChat :=
  (GoogleChatNode String_ loadGoogleChatAgent sendMessageToSpace).
Local Abbreviation GoogleDrive :=
  (GoogleDriveNode String_ basename loadGoogleDriveAgent uploadFile).
Local Abbreviation Jira := (JiraNode String_ fetchTicket fetchSearch).

Variable eng : @WorkflowEngine World.
Variable wf : WorkflowDefinition.

(** The registry holds built-in node types only, under whatever names. *)
Hypothesis only_builtin :
  ∀ t cls, nodeRegistry eng !! t = Some cls →
           cls = Android ∨ cls = GoogleChat ∨ cls = GoogleDrive ∨ cls = Jira.

(** X11. With built-in node types only, the data of every record a run
    returns still holds every key of the input data of the call with the
    value it had there: no node of the chain, however long, replaces or
    removes what the caller passed in. *)
Theorem input_data_survives_the_run (fuel : nat) (input : WorkflowData) (s s' : St)
        (exec : WorkflowExecution) :
  executeWorkflow clock fuel eng wf input s = (Finished (Normal exec), s') →
  input ⊆ ex_data exec.
Proof.
  rewrite executeWorkflow_cases.
  destruct (findStartNode wf) as [startNode|]; [|by intros [= <- _]]. cbv zeta.
  destruct (executeNodeChain fuel eng wf startNode 0 {| state := s; heap := [input] |})
    as [[[out|e]|] m1] eqn:Hch; cbn [fst snd]; [| destruct (describe e) |];
    intros [= <- _]; simpl.
  - apply (chain_keeps_input eng wf) in Hch; [done|].
    intros t cls Hreg.
    pose proof (builtin_nodes_pass_input_through String_ times1000 cwd basename execAsync
                  loadGoogleChatAgent sendMessageToSpace loadGoogleDriveAgent uploadFile
                  fetchTicket fetchSearch) as (? & ? & ? & ?).
    by destruct (only_builtin _ _ Hreg) as [->|[->|[->| ->]]].
  - assert (heap m1 !! 0%nat = Some input) as Hkept.
    { replace m1 with (executeNodeChain fuel eng wf startNode 0
                                        {| state := s; heap := [input] |}).2
        by (by rewrite Hch).
      apply chain_keeps_the_store; [|done]. intros t cls Hreg.
      destruct (only_builtin _ _ Hreg) as [->|[->|[->| ->]]];
        apply by_value_keeps_the_store. }
    unfold deref. by rewrite Hkept.
Qed.

(** X12. With built-in node types only, [executeWorkflow] never throws, and
    the error of a failed run has one of four forms: no start node, an
    unknown node type, "Node execution failed: " followed by the error string
    that the last node executed reported with its failure, or "connections
    is not iterable" when the last node executed succeeded and its id, which
    has no entry of its own in the connections map, is a property name of
    [Object.prototype]. The text of an exception raised inside a node reaches
    the record only through the reported string. *)
Theorem failed_run_messages (fuel : nat) (input : WorkflowData) (s s' : St)
        (r : Run WorkflowExecution) :
  executeWorkflow clock fuel eng wf input s = (r, s') →
  (∀ e, r ≠ Finished (Throw e)) ∧
  (∀ exec,
     r = Finished (Normal exec) → ex_status exec = error →
     ex_error exec = Some "No start node found in workflow" ∨
     (∃ t, ex_error exec = Some ("Unknown node type: " +:+ t)) ∨
     (∃ msg m given result,
        ex_error exec = Some ("Node execution failed: " +:+ msg) ∧
        last (trace s') = Some (EvExecute m given (Normal result)) ∧
        res_success result = false ∧ res_error result = Some msg) ∨
     (∃ m given result,
        ex_error exec = Some not_iterable ∧
        last (trace s') = Some (EvExecute m given (Normal result)) ∧
        res_success result = true ∧
        connections wf !! node_id m = None ∧ inherited (node_id m) = true)).
Proof.
  intros Hrun.
  destruct (executeWorkflow_extends clock eng wf _ _ _ _ _ Hrun) as [tr Htr].
  pose proof (executeWorkflow_run _ _ _ _ _ _ _ _ _ Hrun Htr) as Hch.
  destruct (findStartNode wf) as [startNode|] eqn:Hstart.
  2:{ rewrite executeWorkflow_cases, Hstart in Hrun. injection Hrun as <- _.
      split; [done|]. intros exec [= <-] _. by left. }
  destruct Hch as (walk & Hch & Hrep).
  assert (∀ t cls, nodeRegistry eng !! t = Some cls → never_throws cls) as Hnever.
  { intros t cls Hreg.
    pose proof (builtin_nodes_resolve String_ times1000 cwd basename execAsync
                  loadGoogleChatAgent sendMessageToSpace loadGoogleDriveAgent uploadFile
                  fetchTicket fetchSearch) as (? & ? & ? & ?).
    by destruct (only_builtin _ _ Hreg) as [->|[->|[->| ->]]]. }
  assert (∀ ev, last tr = Some ev → last (trace s') = Some ev) as Hlast.
  { intros ev Hev. by rewrite Htr, last_app, Hev. }
  assert (∀ e, walk = Finished (Throw e) →
               (∃ t, e = ErrorObj ("Unknown node type: " +:+ t)) ∨
               (∃ m given result,
                  last tr = Some (EvExecute m given (Normal result)) ∧
                  res_success result = false ∧
                  e = ErrorObj ("Node execution failed: "
                                  +:+ show_error (res_error result)) ∧
                  is_Some (res_error result)) ∨
               (∃ m given result,
                  last tr = Some (EvExecute m given (Normal result)) ∧
                  res_success result = true ∧
                  connections wf !! node_id m = None ∧ inherited (node_id m) = true ∧
                  e = ErrorObj not_iterable)) as Hcases.
  { intros e ->.
    destruct (chain_run_throw _ _ _ _ _ _ Hch)
      as [(k & _ & _ & ->)|[(m & creds & Hl)|[(m & given & Hl)
         |[(m & given & result & Hl & Hfail & ->)
          |(m & given & result & ? & ? & ? & ? & ->)]]]].
    - left. by eexists.
    - exfalso. apply last_Some_elem_of in Hl.
      by apply (chain_run_never_throws eng wf _ _ _ _ _ e Hnever Hch Hl).
    - exfalso. apply last_Some_elem_of in Hl.
      by apply (chain_run_never_throws eng wf _ _ _ _ _ e Hnever Hch Hl).
    - right; left. exists m, given, result. split_and!; try done.
      apply last_Some_elem_of in Hl.
      destruct (chain_run_calls _ _ _ _ _ _ _ _ _ Hch Hl)
        as (cls & Hcls & w0 & this & r0 & h & w & o & h' & w' & _ & _ & Hex & Ho).
      destruct (proj2 (Hnever _ _ Hcls) this r0 h w)
        as (reply & h1 & w1 & Hex' & Hwf).
      rewrite Hex' in Hex. injection Hex as <- <- _. injection Ho as ->.
      unfold well_formed_result in Hwf. rewrite Hfail in Hwf. by destruct Hwf.
    - right; right. by exists m, given, result. }
  split.
  - intros e ->. destruct walk as [[out|e0]|]; simpl in Hrep.
    + by destruct Hrep as (? & ? & ?).
    + destruct (Hcases e0 eq_refl)
        as [[t ->]|[(? & ? & ? & _ & _ & -> & _)|(? & ? & ? & _ & _ & _ & _ & ->)]];
        simpl in Hrep; by destruct Hrep as (? & ? & ? & ?).
    + done.
  - intros exec -> Hst. destruct walk as [[out|e0]|]; simpl in Hrep.
    + destruct Hrep as (? & ? & [= ->]). discriminate Hst.
    + right.
      destruct (Hcases e0 eq_refl)
        as [[t ->]|[(m & given & result & Hl & Hfail & -> & [msg Hmsg])
           |(m & given & result & Hl & Hok & Hnone & Hinh & ->)]];
        simpl in Hrep; destruct Hrep as (? & ? & ? & [= ->]); simpl.
      * left. by exists t.
      * right; left. exists msg, m, given, result. rewrite Hmsg. split_and!; auto.
      * right; right. exists m, given, result. split_and!; auto.
    + done.
Qed.

End BuiltinRuns.
(** ** The workflow factories *)

Lemma append_inj_r (prefix a b : string) : prefix +:+ a = prefix +:+ b → a = b.
Proof.
  induction prefix as [|c prefix IH]; [done|].
  change (String c (prefix +:+ a) = String c (prefix +:+ b) → a = b).
  intros [= H]. by apply IH.
Qed.

Lemma lookup_no_outgoing ns k conns :
  no_outgoing ns !! k = Some conns → conns = [] ∧ k ∈ node_id <$> ns.
Proof.
  unfold no_outgoing.
  assert (∀ acc : gmap string (list WorkflowConnection),
            foldl (fun conns n => <[node_id n := []]> conns) acc ns !! k = Some conns →
            (conns = [] ∧ k ∈ node_id <$> ns) ∨ acc !! k = Some conns) as Hgen.
  { induction ns as [|n ns IH]; intros acc; simpl; [by right|].
    intros [[-> Hin]|Hacc]%IH.
    - left. split; [done|]. by apply list_elem_of_further.
    - destruct (decide (node_id n = k)) as [<-|Hne].
      + rewrite lookup_insert_eq in Hacc. injection Hacc as <-. left.
        split; [done|]. by constructor.
      + rewrite lookup_insert_ne in Hacc by done. by right. }
  intros [?|Hempty]%Hgen; [done|]. by rewrite lookup_empty in Hempty.
Qed.

Lemma no_outgoing_is_Some ns k :
  k ∈ node_id <$> ns → no_outgoing ns !! k = Some [].
Proof.
  unfold no_outgoing.
  assert (∀ acc : gmap string (list WorkflowConnection),
            k ∈ node_id <$> ns ∨ acc !! k = Some [] →
            foldl (fun conns n => <[node_id n := []]> conns) acc ns !! k = Some [])
    as Hgen.
  { induction ns as [|n ns IH]; intros acc; simpl.
    - intros [Hin|?]; [by apply elem_of_nil in Hin | done].
    - intros [Hin|Hacc]; apply IH.
      + apply elem_of_cons in Hin as [->|?]; [right; apply lookup_insert_eq | by left].
      + right. destruct (decide (node_id n = k)) as [<-|Hne].
        * apply lookup_insert_eq.
        * by rewrite lookup_insert_ne. }
  intros Hin. apply Hgen. by left.
Qed.

Lemma NoDup_indexed_ids {A} (f : nat → A → WorkflowNode) (prefix : string)
      (l : list A) :
  (∀ i x, node_id (f i x) = prefix +:+ pretty i) →
  NoDup (node_id <$> imap f l).
Proof.
  intros Hid. apply NoDup_alt. intros i j x.
  rewrite !list_lookup_fmap, !list_lookup_imap.
  destruct (l !! i) as [a|]; [|done]. destruct (l !! j) as [b|]; [|done]. simpl.
  rewrite !Hid. intros [= <-] [= Heq]. apply append_inj_r in Heq.
  by apply (inj pretty) in Heq.
Qed.

Section FactoryFacts.
Variable env : gmap string string.

(** X13. The batch factories build well-formed definitions for every list
    of items, also the empty one: one node per item, pairwise different node
    ids, and a connections map whose keys are exactly the node ids, each with
    an empty list of targets. *)
Theorem batch_workflows_are_well_formed :
  let well_formed (wf : WorkflowDefinition) (n : nat) :=
    length (nodes wf) = n ∧
    NoDup (node_id <$> nodes wf) ∧
    (∀ k, is_Some (connections wf !! k) ↔ k ∈ node_id <$> nodes wf) ∧
    no_connections wf in
  (∀ messages,
     well_formed (createGoogleChatBatchMessageWorkflow env messages)
                 (length messages)) ∧
  (∀ spaceId threadId messages,
     well_formed (createGoogleChatThreadedMessageWorkflow env spaceId threadId messages)
                 (length messages)) ∧
  (∀ files,
     well_formed (createGoogleDriveBatchUploadWorkflow env files) (length files)).
Proof.
  cbv zeta. split_and!; intros; simpl; (split_and!;
    [ apply length_imap
    | by eapply NoDup_indexed_ids
    | intros k; split;
      [ intros [conns Hk]; by apply lookup_no_outgoing in Hk as [_ ?]
      | intros Hk; rewrite (no_outgoing_is_Some _ _ Hk); by eexists ]
    | intros k conns Hk; by apply lookup_no_outgoing in Hk as [? _] ]).
Qed.

End FactoryFacts.

Lemma no_connections_singleton (wf : WorkflowDefinition) k :
  connections wf = {[ k := [] ]} → no_connections wf.
Proof.
  intros Hc i conns. rewrite Hc. by intros [_ <-]%lookup_singleton_Some.
Qed.

Lemma no_connections_no_outgoing (wf : WorkflowDefinition) ns :
  connections wf = no_outgoing ns → no_connections wf.
Proof. intros Hc i conns. rewrite Hc. by intros [? _]%lookup_no_outgoing. Qed.

Section FactoryRuns.
Context {World : Type}.
Variable clock : World → Z.
Variable String_ : JSValue → Completion string.
Variable basename : JSValue → Completion string.
Variable loadGoogleDriveAgent : World → Completion unit * World.
Variable uploadFile :
  JSValue → JSValue → JSValue → World → Completion JSValue * World.
Variable fetchTicket :
  BaseNode → JSValue → JSValue → JSValue → World → Completion JSValue * World.
Variable fetchSearch :
  BaseNode → JSValue → JSValue → World → Completion (JSValue * JSValue) * World.
Variable env : gmap string string.

Local Abbreviation GoogleDrive :=
  (GoogleDriveNode String_ basename loadGoogleDriveAgent uploadFile).
Local Abbreviation GoogleDrive_execute :=
  (GoogleDriveNode_execute String_ basename loadGoogleDriveAgent uploadFile).
Local Abbreviation default_engine :=
  (WorkflowEngine_new String_ fetchTicket fetchSearch).

(** X14. The engine runs the batch workflows one item deep: for a non-empty
    list of messages or files the run finishes having instantiated and
    executed at most the node of the first item, so that the later messages
    are not sent and the later files not uploaded; for an empty list it
    reports that there is no start node. *)
Theorem batch_runs_only_the_first_item (eng : @WorkflowEngine World) (fuel : nat)
        (input : WorkflowData) (s : St) :
  let only (wf : WorkflowDefinition) (first : WorkflowNode) :=
    ∃ c s' tr,
      executeWorkflow clock (S fuel) eng wf input s = (Finished c, s') ∧
      trace s' = trace s ++ tr ∧
      executed tr = instantiated tr ∧
      (instantiated tr = [] ∨ instantiated tr = [first]) in
  let none (wf : WorkflowDefinition) :=
    executeWorkflow clock fuel eng wf input s
    = (Finished (Normal (failed_execution (clock (world s)) (clock (world s)) input
                           "No start node found in workflow")), s) in
  (∀ m rest, only (createGoogleChatBatchMessageWorkflow env (m :: rest))
                  (chatBatchNode env 0 m)) ∧
  (∀ spaceId threadId m rest,
     only (createGoogleChatThreadedMessageWorkflow env spaceId threadId (m :: rest))
          (chatThreadedNode env spaceId threadId 0 m)) ∧
  (∀ f rest, only (createGoogleDriveBatchUploadWorkflow env (f :: rest))
                  (driveBatchNode env 0 f)) ∧
  none (createGoogleChatBatchMessageWorkflow env []) ∧
  (∀ spaceId threadId,
     none (createGoogleChatThreadedMessageWorkflow env spaceId threadId [])) ∧
  none (createGoogleDriveBatchUploadWorkflow env []).
Proof.
  cbv zeta. split_and!; intros;
    lazymatch goal with
    | |- ∃ _ _ _, executeWorkflow _ _ _ ?wf _ _ = _ ∧ _ =>
        eapply (proj2 (lone_run clock eng wf fuel input s
                         (no_connections_no_outgoing wf _ eq_refl))); reflexivity
    | |- executeWorkflow _ _ _ ?wf _ _ = _ =>
        apply (proj1 (lone_run clock eng wf fuel input s
                        (no_connections_no_outgoing wf _ eq_refl))); reflexivity
    end.
Qed.

Lemma drive_batch_node_fails i file wf (input : WorkflowData) (w : World) :
  GoogleDrive_execute
    {| this_node := driveBatchNode env i file;
       this_credentials := extractCredentials (driveBatchNode env i file) wf |}
    input w
  = (Normal (createErrorResult (missing_credential "googleDriveServiceAccount")), w).
Proof.
  unfold GoogleDriveNode_execute, catch_to_result, extractCredentials. simpl.
  unfold js_get. by rewrite lookup_singleton_ne.
Qed.

(** X15. The nodes of the batch upload workflow carry a credential called
    [googleDriveApi], not the [googleDriveServiceAccount] the Google Drive
    node asks for: on an engine where that node type is registered, a run of
    the workflow for a non-empty list of files fails on its first node with
    the missing-credential error, in every environment, without uploading
    anything. *)
Theorem drive_batch_upload_lacks_its_credential (eng : @WorkflowEngine World)
        (f : DriveFile) (rest : list DriveFile) (fuel : nat) (input : WorkflowData)
        (s : St) :
  nodeRegistry eng !! "googleDrive" = Some GoogleDrive →
  let wf := createGoogleDriveBatchUploadWorkflow env (f :: rest) in
  let first := driveBatchNode env 0 f in
  let failure := createErrorResult (missing_credential "googleDriveServiceAccount") in
  executeWorkflow clock (S fuel) eng wf input s
  = (Finished (Normal (failed_execution (clock (world s)) (clock (world s)) input
        ("Node execution failed: " +:+ missing_credential "googleDriveServiceAccount"))),
     {| world := world s;
        trace := (trace s ++ [EvNew first (extractCredentials first wf)])
                   ++ [EvExecute first input (Normal failure)] |}).
Proof.
  intros Hreg. cbv zeta.
  apply (failing_start_node clock eng _ (driveBatchNode env 0 f) GoogleDrive_execute).
  - pose proof (no_connections_no_outgoing
                  (createGoogleDriveBatchUploadWorkflow env (f :: rest)) _ eq_refl)
      as Hno.
    by rewrite (findStartNode_no_connections _ Hno).
  - exact Hreg.
  - apply drive_batch_node_fails.
Qed.

Lemma drive_list_node_fails folderId pageSize wf (input : WorkflowData) (w : World) :
  let n := {| node_id := "google-drive-node-1"; node_type := "googleDrive";
              node_name := "List Files";
              node_position := {| pos_x := 100; pos_y := 100 |};
              node_parameters :=
                {[ "operation" := JStr "listFiles"; "folderId" := opt_str folderId;
                   "pageSize" := JNum (default 10 pageSize) ]};
              node_credentials := Some (driveServiceAccount env) |} in
  GoogleDrive_execute
    {| this_node := n; this_credentials := extractCredentials n wf |} input w
  = (Normal (createErrorResult
               (match (loadGoogleDriveAgent w).1 with
                | Normal _ => "Unknown operation: listFiles"
                | Throw e => error_message e
                end)),
     (loadGoogleDriveAgent w).2).
Proof.
  cbv zeta.
  unfold GoogleDriveNode_execute, unknown_operation, catch_to_result,
    extractCredentials. simpl.
  unfold js_get, driveServiceAccount. rewrite lookup_singleton_eq. simpl.
  unfold getParameter, js_get. simpl. rewrite lookup_insert_eq. simpl.
  by destruct (loadGoogleDriveAgent w) as [[[]|e] w1].
Qed.

(** X16. The list workflow asks for the operation [listFiles], which the
    Google Drive node does not implement: on an engine where that node type
    is registered every run of the workflow returns status [error], with
    the message "Node execution failed: Unknown operation: listFiles" when
    the agent loads, and does nothing to the world beyond loading the
    agent. *)
Theorem drive_list_workflow_never_lists (eng : @WorkflowEngine World)
        (folderId : option string) (pageSize : option Z) (fuel : nat)
        (input : WorkflowData) (s : St) :
  nodeRegistry eng !! "googleDrive" = Some GoogleDrive →
  ∃ exec s' msg,
    executeWorkflow clock (S fuel) eng
                    (createGoogleDriveListWorkflow env folderId pageSize) input s
    = (Finished (Normal exec), s') ∧
    ex_status exec = error ∧
    ex_error exec = Some ("Node execution failed: " +:+ msg) ∧
    world s' = (loadGoogleDriveAgent (world s)).2 ∧
    (∀ w1, loadGoogleDriveAgent (world s) = (Normal tt, w1) →
           msg = "Unknown operation: listFiles").
Proof.
  intros Hreg.
  pose proof (no_connections_singleton
                (createGoogleDriveListWorkflow env folderId pageSize) _ eq_refl) as Hno.
  pose proof (findStartNode_no_connections _ Hno) as Hstart.
  cbn [createGoogleDriveListWorkflow nodes head] in Hstart.
  eexists _, _, _. split.
  - eapply (failing_start_node clock eng _ _ GoogleDrive_execute);
      [exact Hstart | exact Hreg | apply drive_list_node_fails].
  - split_and!; [done | done | done |]. by intros w1 ->.
Qed.

(** X17. In every environment, also one where none of the variables the
    factories read is set, the nodes of the Jira workflow, of the three
    Google Chat workflows and of the upload, list and large-file Google
    Drive workflows are given the credential that the [execute] of their
    node type checks for: that check passes. *)
Theorem factory_nodes_carry_their_credential :
  let passes (wf : WorkflowDefinition) (requiredCreds : list string) :=
    ∀ n, n ∈ nodes wf →
         validateRequiredCredentials
           {| this_node := n; this_credentials := extractCredentials n wf |}
           requiredCreds = Normal tt in
  (∀ ticketKey, passes (createJiraWorkflow env ticketKey) JiraNode_credentials) ∧
  (∀ spaceId messageText threadId,
     passes (createGoogleChatMessageWorkflow env spaceId messageText threadId)
            GoogleChatNode_credentials) ∧
  (∀ messages,
     passes (createGoogleChatBatchMessageWorkflow env messages)
            GoogleChatNode_credentials) ∧
  (∀ spaceId threadId messages,
     passes (createGoogleChatThreadedMessageWorkflow env spaceId threadId messages)
            GoogleChatNode_credentials) ∧
  (∀ filePath folderId fileName,
     passes (createGoogleDriveUploadWorkflow env filePath folderId fileName)
            GoogleDriveNode_credentials) ∧
  (∀ folderId pageSize,
     passes (createGoogleDriveListWorkflow env folderId pageSize)
            GoogleDriveNode_credentials) ∧
  (∀ filePath folderId fileName,
     passes (createGoogleDriveLargeFileUploadWorkflow env filePath folderId fileName)
            GoogleDriveNode_credentials).
Proof.
  cbv zeta. split_and!; intros; simpl in *;
    repeat match goal with
           | H : _ ∈ [_] |- _ => apply list_elem_of_singleton in H; subst
           | H : _ ∈ imap _ _ |- _ =>
               apply elem_of_lookup_imap_1 in H as (? & ? & -> & _)
           end;
    simpl; unfold js_get, extractCredentials, driveServiceAccount; simpl;
    by rewrite lookup_singleton_eq.
Qed.

(** X18. The engine the agents construct knows the Jira node type only. A
    run of a definition whose start node has any other type fails with the
    unknown-node-type error before any node is instantiated; this is what
    happens to the Android, Google Chat and Google Drive workflows of the
    factories on that engine. *)
Theorem default_engine_runs_only_jira (fuel : nat) (input : WorkflowData) (s : St) :
  let unknown (wf : WorkflowDefinition) (type : string) :=
    executeWorkflow clock (S fuel) default_engine wf input s
    = (Finished (Normal (failed_execution (clock (world s)) (clock (world s)) input
                           ("Unknown node type: " +:+ type))), s) in
  getAvailableNodes default_engine = ["jira"] ∧
  (∀ wf start, findStartNode wf = Some start → node_type start ≠ "jira" →
               unknown wf (node_type start)) ∧
  (∀ cwd_now command projectPath,
     unknown (createAndroidWorkflow cwd_now command projectPath) "android") ∧
  (∀ spaceId messageText threadId,
     unknown (createGoogleChatMessageWorkflow env spaceId messageText threadId)
             "googleChat") ∧
  (∀ filePath folderId fileName,
     unknown (createGoogleDriveUploadWorkflow env filePath folderId fileName)
             "googleDrive").
Proof.
  cbv zeta.
  assert (∀ wf start, findStartNode wf = Some start → node_type start ≠ "jira" →
            executeWorkflow clock (S fuel) default_engine wf input s
            = (Finished (Normal (failed_execution (clock (world s)) (clock (world s))
                                   input ("Unknown node type: " +:+ node_type start))),
               s)) as Hgen.
  { intros wf start Hstart Hne. apply run_of_unknown_type; [done|].
    unfold WorkflowEngine_new, registerNode. cbn [nodeRegistry].
    by rewrite Map_lookup_set_ne. }
  split_and!.
  - reflexivity.
  - exact Hgen.
  - intros.
    pose proof (no_connections_singleton
                  (createAndroidWorkflow cwd_now command projectPath) _ eq_refl) as Hno.
    pose proof (findStartNode_no_connections _ Hno) as Hstart.
    exact (Hgen _ _ Hstart ltac:(done)).
  - intros.
    pose proof (no_connections_singleton
                  (createGoogleChatMessageWorkflow env spaceId messageText threadId)
                  _ eq_refl) as Hno.
    pose proof (findStartNode_no_connections _ Hno) as Hstart.
    exact (Hgen _ _ Hstart ltac:(done)).
  - intros.
    pose proof (no_connections_singleton
                  (createGoogleDriveUploadWorkflow env filePath folderId fileName)
                  _ eq_refl) as Hno.
    pose proof (findStartNode_no_connections _ Hno) as Hstart.
    exact (Hgen _ _ Hstart ltac:(done)).
Qed.

End FactoryRuns.

(** ** agents/jira/JiraAgent.ts *)

Section JiraAgentFacts.
Context {World : Type}.
Variable clock : World → Z.
Variable String_ : JSValue → Completion string.
Variable fetchTicket :
  BaseNode → JSValue → JSValue → JSValue → World → Completion JSValue * World.
Variable fetchSearch :
  BaseNode → JSValue → JSValue → World → Completion (JSValue * JSValue) * World.
Variable env : gmap string string.
Variable TypeError_message : JSValue → string → string.

Local Abbreviation Jira_execute := (JiraNode_execute String_ fetchTicket fetchSearch).
Local Abbreviation fetchSingle :=
  (fetchSingleTicket clock String_ fetchTicket fetchSearch env TypeError_message).

(** The node instance the engine builds for the Jira workflow. *)
Lemma jira_workflow_node ticketKey start (input : WorkflowData) (w : World) :
  head (nodes (createJiraWorkflow env ticketKey)) = Some start →
  let self := {| this_node := start;
                 this_credentials :=
                   extractCredentials start (createJiraWorkflow env ticketKey) |} in
  Jira_execute self input w
  = if String.eqb ticketKey "" then
      (Normal (createErrorResult "Ticket key is required"), w)
    else
      match fetchTicket self (JStr ticketKey) (JBool true) (JNum 200) w with
      | (Throw e, w') => (Normal (createErrorResult (error_message e)), w')
      | (Normal ticket, w') =>
          (Normal (createSuccessResult (spread_after {[ "ticket" := ticket ]} input)),
           w')
      end.
Proof.
  intros [= <-]. cbv zeta.
  unfold JiraNode_execute, JiraNode_getTicket, catch_to_result.
  match goal with
  | |- context [validateRequiredCredentials ?self _] =>
      assert (validateRequiredCredentials self ["jiraApi"] = Normal tt) as ->
        by (by vm_compute);
      assert (getParameter self "operation" (JStr "getTicket") = JStr "getTicket")
        as -> by (by vm_compute);
      assert (getParameter self "ticketKey" JUndefined = JStr ticketKey)
        as -> by (by vm_compute);
      assert (getParameter self "includeDescription" (JBool true) = JBool true)
        as -> by (by vm_compute);
      assert (getParameter self "maxDescriptionLength" (JNum 200) = JNum 200)
        as -> by (by vm_compute)
  end.
  simpl. destruct (String.eqb ticketKey ""); simpl; [done|].
  by destruct (fetchTicket _ _ _ _ w) as [[ticket|e] w'].
Qed.

(** X19. [fetchSingleTicket] always resolves to a text and never throws. For
    an empty ticket key it reports that the key is required, without any
    request. Otherwise it makes one request with that key: an exception of
    the request comes back as "Error executing Jira workflow: Node execution
    failed: ..." with its message, a ticket as the summary built from it, or
    as "Error fetching ticket: ..." when the summary cannot be built. The
    credential check cannot fail on this path, whatever the environment. *)
Theorem fetchSingleTicket_reports (fuel : nat) (ticketKey : string) (s : St) :
  let wf := createJiraWorkflow env ticketKey in
  ∃ start text s',
    head (nodes wf) = Some start ∧
    fetchSingle (S fuel) ticketKey s = (Finished (Normal text), s') ∧
    (ticketKey = "" →
     text = "Error executing Jira workflow: Node execution failed: Ticket key is required"
     ∧ world s' = world s) ∧
    (ticketKey ≠ "" →
     world s' = (fetchTicket {| this_node := start;
                                this_credentials := extractCredentials start wf |}
                             (JStr ticketKey) (JBool true) (JNum 200) (world s)).2 ∧
     text = match (fetchTicket {| this_node := start;
                                  this_credentials := extractCredentials start wf |}
                               (JStr ticketKey) (JBool true) (JNum 200) (world s)).1 with
            | Throw e =>
                "Error executing Jira workflow: Node execution failed: "
                  +:+ error_message e
            | Normal ticket =>
                match ticketSummary String_ TypeError_message ticket with
                | Normal summary => summary
                | Throw e => "Error fetching ticket: " +:+ error_message e
                end
            end).
Proof.
  cbv zeta.
  pose proof (no_connections_singleton (createJiraWorkflow env ticketKey) _ eq_refl)
    as Hno.
  pose proof (findStartNode_no_connections _ Hno) as Hstart.
  assert (∃ start, head (nodes (createJiraWorkflow env ticketKey)) = Some start)
    as [start Hhead] by (eexists; reflexivity).
  rewrite Hhead in Hstart.
  assert (nodeRegistry (JiraAgent_workflowEngine String_ fetchTicket fetchSearch)
          !! node_type start = Some (by_value Jira_execute)) as Hreg.
  { injection Hhead as <-. apply Map_lookup_set_eq. }
  assert (getNextNodes (createJiraWorkflow env ticketKey) (node_id start) = Normal [])
    as Hend by (injection Hhead as <-; reflexivity).
  pose proof (jira_workflow_node ticketKey start ∅ (world s) Hhead) as Hnode.
  cbv zeta in Hnode.
  exists start. unfold fetchSingleTicket, try_catch, mbind, M_bind, bind.
  destruct (String.eqb ticketKey "") eqn:Hkey.
  - rewrite (failing_start_node clock _ _ start Jira_execute fuel ∅ s _ _
               Hstart Hreg Hnode).
    cbn -[pretty]. eexists _, _. split; [exact Hhead|]. split; [reflexivity|].
    apply String.eqb_eq in Hkey. cbn. split.
    + intros _. split; reflexivity.
    + intros Hne. by destruct Hne.
  - apply String.eqb_neq in Hkey.
    destruct (fetchTicket _ _ _ _ (world s)) as [[ticket|e] w'] eqn:Hfetch.
    + rewrite (succeeding_last_node clock _ _ start Jira_execute fuel ∅ s _ _
                 Hstart Hreg Hnode Hend).
      cbn -[pretty]. unfold spread_after, js_get.
      rewrite (left_id_L ∅ (∪)), lookup_singleton_eq. unfold pure_call.
      destruct (ticketSummary String_ TypeError_message ticket) as [summary|e];
        cbn -[pretty]; eexists _, _; (split; [exact Hhead|]);
        (split; [reflexivity|]); cbn;
        (split; [intros Heq; by destruct (Hkey Heq) | intros _; split; reflexivity]).
    + rewrite (failing_start_node clock _ _ start Jira_execute fuel ∅ s _ _
                 Hstart Hreg Hnode).
      cbn -[pretty]. eexists _, _. split; [exact Hhead|]. split; [reflexivity|]. cbn.
      split; [intros Heq; by destruct (Hkey Heq) | intros _; split; reflexivity].
Qed.

End JiraAgentFacts.

(** ** Acyclic definitions *)

Section AcyclicRuns.
Context {World : Type}.
Variable clock : World → Z.
Variable eng : @WorkflowEngine World.
Variable wf : WorkflowDefinition.

Lemma chain_run_no_repeat start n input r tr :
  chain_run eng wf n input r tr →
  ¬ reachable_cycle wf start →
  n ∈ nodes wf →
  rtc (edge wf) (node_id start) (node_id n) →
  NoDup (node_id <$> executed tr) ∧
  ∀ m, m ∈ executed tr → rtc (edge wf) (node_id n) (node_id m).
Proof.
  intros Hrun Hacyclic. induction Hrun as
    [ | | | | | | | n input cls res nextNode others r tr Hreg Hcall Hres Hnext Hrun IH ];
    intros Hn Hreach; simpl;
    try (split; [constructor | by intros m Hm; apply elem_of_nil in Hm]);
    try (split; [apply NoDup_singleton | by intros m ->%list_elem_of_singleton]).
  assert (followed wf n nextNode) as Hfol by (by exists others).
  destruct (followed_edge wf _ _ Hn Hfol) as [Hedge Hin].
  destruct (IH Hin) as [Hnodup Hreachable]; [by eapply rtc_r|]. split.
  - apply NoDup_cons. split; [|done].
    intros (m & Hid & Hm)%list_elem_of_fmap. apply Hacyclic.
    exists (node_id n). split; [done|].
    eapply tc_rtc_r; [by apply tc_once|]. rewrite Hid. by apply Hreachable.
  - intros m [->|Hm]%elem_of_cons; [done|].
    eapply rtc_l; [exact Hedge|]. by apply Hreachable.
Qed.

(** X20. When the connection graph reachable from the start node has no
    cycle, a run executes no node id twice, and so executes at most as many
    nodes as the definition declares. *)
Theorem acyclic_run_has_no_repeats (fuel : nat) (input : WorkflowData) (s s' : St)
        (r : Run WorkflowExecution) (tr : list Event) :
  executeWorkflow clock fuel eng wf input s = (r, s') →
  trace s' = trace s ++ tr →
  (∀ start, findStartNode wf = Some start → ¬ reachable_cycle wf start) →
  NoDup (node_id <$> executed tr) ∧
  (length (executed tr) ≤ length (nodes wf))%nat.
Proof.
  intros Hrun Htr Hacyclic.
  pose proof (executeWorkflow_run _ _ _ _ _ _ _ _ _ Hrun Htr) as Hch.
  destruct (findStartNode wf) as [start|] eqn:Hstart.
  - destruct Hch as (walk & Hch & _).
    pose proof (start_node_is_first_with_its_id _ _ Hstart) as [Hin _].
    destruct (chain_run_no_repeat start _ _ _ _ Hch (Hacyclic _ eq_refl) Hin)
      as [Hnodup _]; [done|].
    split; [done|].
    rewrite <- (length_fmap node_id (executed tr)), <- (length_fmap node_id (nodes wf)).
    apply submseteq_length, NoDup_submseteq; [done|].
    intros i (m & -> & Hm)%list_elem_of_fmap. apply list_elem_of_fmap_2.
    rewrite (proj1 (chain_run_path _ _ _ _ _ _ Hch)) in Hm.
    by apply (chain_run_members _ _ _ _ _ _ Hch
                (start_node_is_first_with_its_id _ _ Hstart)).
  - subst tr. simpl. split; [constructor | lia].
Qed.

End AcyclicRuns.

(** ** engine/WorkflowEngine.ts: successors *)

(** X21. [getNextNodes] gives, for an id with an entry of its own in the
    connections map, the nodes its connections name, in the order of the
    connections, each the first node of the definition with that id, and
    skips the connections that name no node. For an id without entry it
    gives the empty list, unless the id is a property name of
    [Object.prototype]: then it throws the [TypeError] "connections is not
    iterable". *)
Theorem getNextNodes_spec (wf : WorkflowDefinition) (currentNodeId : string) :
  (∀ conns, connections wf !! currentNodeId = Some conns →
            getNextNodes wf currentNodeId = Normal (omap (resolve wf) conns)) ∧
  (connections wf !! currentNodeId = None → inherited currentNodeId = false →
   getNextNodes wf currentNodeId = Normal []) ∧
  (connections wf !! currentNodeId = None → inherited currentNodeId = true →
   getNextNodes wf currentNodeId = Throw (ErrorObj not_iterable)) ∧
  (∀ next, getNextNodes wf currentNodeId = Normal next →
           ∀ n, n ∈ next →
                n ∈ nodes wf ∧
                find (fun x => bool_decide (node_id x = node_id n)) (nodes wf) = Some n).
Proof.
  unfold getNextNodes. split_and!.
  - intros conns ->. by rewrite nextNodes_of_resolve.
  - by intros -> ->.
  - by intros -> ->.
  - intros next Hnext n Hn.
    assert (next = omap (resolve wf) (default [] (connections wf !! currentNodeId)))
      as -> by (by apply getNextNodes_resolve).
    apply list_elem_of_omap in Hn as (c & _ & Hres).
    pose proof (resolve_Some wf c n Hres) as [Hin Hid]. split; [done|].
    unfold resolve in Hres. by rewrite Hid.
Qed.

(** ** engine/WorkflowEngine.ts: constructors that throw *)

Section ConstructorFacts.
Context {World : Type}.
Variable clock : World → Z.

(** X22. When the constructor of a node class throws, the run ends there:
    the constructor was called with the credentials of the node's own
    definition, the failed call is the last thing the run does to any node,
    and [executeWorkflow] returns a record with status [error] whose message
    is the text of what was thrown, or throws itself when that text cannot
    be had. *)
Theorem constructor_failure_aborts_run (eng : @WorkflowEngine World)
        (wf : WorkflowDefinition) (fuel : nat) (input : WorkflowData) (s s' : St)
        (r : Run WorkflowExecution) (tr : list Event) (n : WorkflowNode)
        (creds : gmap string JSValue) (e : Exception) :
  executeWorkflow clock fuel eng wf input s = (r, s') →
  trace s' = trace s ++ tr →
  EvNewThrew n creds e ∈ tr →
  (∃ before, tr = before ++ [EvNewThrew n creds e]) ∧
  creds = default ∅ (node_credentials n) ∧
  (∃ cls, nodeRegistry eng !! node_type n = Some cls ∧ new_throws cls n e) ∧
  match describe e with
  | Normal message => reports r message
  | Throw e' => r = Finished (Throw e')
  end.
Proof.
  intros Hrun Htr Hin.
  pose proof (executeWorkflow_run _ _ _ _ _ _ _ _ _ Hrun Htr) as Hch.
  destruct (findStartNode wf) as [start|].
  2:{ subst tr. by apply elem_of_nil in Hin. }
  destruct Hch as (walk & Hch & Hrep).
  destruct (chain_run_unbuilt _ _ _ _ _ _ _ _ _ Hch Hin) as (-> & Hcls & Hlast).
  split_and!; [done | | done |].
  - eapply chain_run_credentials; [exact Hch|]. right. by exists e.
  - simpl in Hrep. destruct (describe e); [|done].
    destruct Hrep as (t0 & t1 & data & ->). by eexists.
Qed.

End ConstructorFacts.

(** ** The further properties on concrete runs *)

Section MoreScenarios.
Import Scenario Fixtures.

(** X5 on A → B, A → C, B → C. *)
Lemma data_is_threaded_witness :
  (∀ m given o, executions (trace (run 5 diamond).2) !! 0%nat = Some (m, given, o) →
                findStartNode diamond = Some m ∧ given = ∅) ∧
  (∀ i m given o m' given' o',
     executions (trace (run 5 diamond).2) !! i = Some (m, given, o) →
     executions (trace (run 5 diamond).2) !! S i = Some (m', given', o') →
     ∃ result, o = Normal result ∧ res_success result = true ∧
               given' = default ∅ (res_data result)).
Proof.
  apply (data_is_threaded clock0 engine diamond 5 ∅ s0 (run 5 diamond).2
           (run 5 diamond).1 (trace (run 5 diamond).2)); reflexivity.
Defined.

(** X6 on the same run. *)
Lemma successful_run_shape_witness :
  ex_error (successful_execution 0 0 ∅) = None ∧
  (∀ m given o, (m, given, o) ∈ executions (trace (run 5 diamond).2) →
                ∃ result, o = Normal result ∧ res_success result = true) ∧
  ∃ m given result,
    last (executions (trace (run 5 diamond).2)) = Some (m, given, Normal result) ∧
    ex_data (successful_execution 0 0 ∅) = default ∅ (res_data result) ∧
    getNextNodes diamond (node_id m) = Normal [].
Proof.
  apply (successful_run_shape clock0 engine diamond 5 ∅ s0 (run 5 diamond).2
           (successful_execution 0 0 ∅) (trace (run 5 diamond).2)).
  - vm_compute. reflexivity.
  - reflexivity.
  - reflexivity.
Defined.

(** X7 on the same run, for its last node. *)
Lemma run_nodes_are_first_with_their_id_witness :
  nC ∈ nodes diamond ∧
  find (fun x => bool_decide (node_id x = node_id nC)) (nodes diamond) = Some nC ∧
  ∀ pre post, nodes diamond = pre ++ nC :: post → nC ∉ pre →
              ∀ x, x ∈ pre → node_id x ≠ node_id nC.
Proof.
  apply (run_nodes_are_first_with_their_id clock0 engine diamond 5 ∅ s0
           (run 5 diamond).2 (run 5 diamond).1 (trace (run 5 diamond).2) nC).
  - reflexivity.
  - reflexivity.
  - right. vm_compute. do 2 apply list_elem_of_further. apply list_elem_of_here.
Defined.

Lemma single_has_no_connections : no_connections single.
Proof. intros k conns Hk. unfold single, workflow in Hk. simpl in Hk.
       by rewrite lookup_empty in Hk. Qed.

(** X8 on the single node n1. *)
Lemma run_without_connections_witness :
  (nodes single = [] →
   executeWorkflow clock0 0 engine single ∅ s0
   = (Finished (Normal (failed_execution (clock0 (world s0)) (clock0 (world s0)) ∅
                          "No start node found in workflow")), s0)) ∧
  (∀ first rest,
     nodes single = first :: rest →
     ∃ c s' tr,
       executeWorkflow clock0 1 engine single ∅ s0 = (Finished c, s') ∧
       trace s' = trace s0 ++ tr ∧
       executed tr = instantiated tr ∧
       (instantiated tr = [] ∨ instantiated tr = [first])).
Proof.
  apply (run_without_connections clock0 engine single 0 ∅ s0).
  exact single_has_no_connections.
Defined.

Lemma default_engine_is_builtin :
  ∀ t cls, nodeRegistry default_engine !! t = Some cls →
           cls = AndroidNode seconds_to_ms home shell ∨
           cls = GoogleChatNode no_text agent_ready send_refused ∨
           cls = GoogleDriveNode no_text last_part agent_ready upload_ok ∨
           cls = JiraNode no_text offline_ticket offline_search.
Proof.
  intros t cls. unfold default_engine, WorkflowEngine_new, registerNode.
  cbn [nodeRegistry].
  intros [[_ ->]|[_ Hempty]]%Map_lookup_set_Some; [by do 3 right|].
  by rewrite Map_lookup_empty in Hempty.
Qed.

(** X11 on the Jira workflow with an unreachable server. *)
Lemma input_data_survives_the_run_witness :
  x1 ⊆ ex_data (failed_execution 0 0 x1 "Node execution failed: offline").
Proof.
  apply (input_data_survives_the_run clock0 no_text seconds_to_ms home last_part shell
           agent_ready send_refused agent_ready upload_ok offline_ticket offline_search
           default_engine (createJiraWorkflow ∅ "PROJ-1") default_engine_is_builtin
           1 x1 s0 jira_run.2).
  vm_compute. reflexivity.
Defined.

(** X12 on the same run. *)
Lemma failed_run_messages_witness :
  (∀ e, jira_run.1 ≠ Finished (Throw e)) ∧
  (∀ exec,
     jira_run.1 = Finished (Normal exec) → ex_status exec = error →
     ex_error exec = Some "No start node found in workflow" ∨
     (∃ t, ex_error exec = Some ("Unknown node type: " +:+ t)) ∨
     (∃ msg m given result,
        ex_error exec = Some ("Node execution failed: " +:+ msg) ∧
        last (trace jira_run.2) = Some (EvExecute m given (Normal result)) ∧
        res_success result = false ∧ res_error result = Some msg) ∨
     (∃ m given result,
        ex_error exec = Some not_iterable ∧
        last (trace jira_run.2) = Some (EvExecute m given (Normal result)) ∧
        res_success result = true ∧
        connections (createJiraWorkflow ∅ "PROJ-1") !! node_id m = None ∧
        inherited (node_id m) = true)).
Proof.
  apply (failed_run_messages clock0 no_text seconds_to_ms home last_part shell
           agent_ready send_refused agent_ready upload_ok offline_ticket offline_search
           default_engine (createJiraWorkflow ∅ "PROJ-1") default_engine_is_builtin
           1 x1 s0 jira_run.2 jira_run.1).
  reflexivity.
Defined.

(** X15 on a batch of one file. *)
Lemma drive_batch_upload_lacks_its_credential_witness :
  executeWorkflow clock0 1 drive_engine (createGoogleDriveBatchUploadWorkflow ∅ [report])
                  ∅ s0
  = (Finished (Normal (failed_execution 0 0 ∅
        ("Node execution failed: " +:+ missing_credential "googleDriveServiceAccount"))),
     {| world := tt;
        trace :=
          ([] ++ [EvNew (driveBatchNode ∅ 0 report)
                        (extractCredentials
                           (driveBatchNode ∅ 0 report)
                           (createGoogleDriveBatchUploadWorkflow ∅ [report]))])
            ++ [EvExecute (driveBatchNode ∅ 0 report) ∅
                  (Normal (createErrorResult
                             (missing_credential "googleDriveServiceAccount")))] |}).
Proof.
  apply (drive_batch_upload_lacks_its_credential clock0 no_text last_part agent_ready
           upload_ok ∅ drive_engine report [] 0 ∅ s0).
  reflexivity.
Defined.

(** X16 on the list workflow. *)
Lemma drive_list_workflow_never_lists_witness :
  ∃ exec s' msg,
    executeWorkflow clock0 1 drive_engine (createGoogleDriveListWorkflow ∅ None None)
                    ∅ s0
    = (Finished (Normal exec), s') ∧
    ex_status exec = error ∧
    ex_error exec = Some ("Node execution failed: " +:+ msg) ∧
    world s' = (agent_ready (world s0)).2 ∧
    (∀ w1, agent_ready (world s0) = (Normal tt, w1) →
           msg = "Unknown operation: listFiles").
Proof.
  apply (drive_list_workflow_never_lists clock0 no_text last_part agent_ready upload_ok
           ∅ drive_engine None None 0 ∅ s0).
  reflexivity.
Defined.

Lemma diamond_edges a b :
  edge diamond a b → (a = "A" ∧ (b = "B" ∨ b = "C")) ∨ (a = "B" ∧ b = "C").
Proof.
  intros (_ & _ & conns & c & Hconns & Hc & <-).
  unfold diamond, workflow in Hconns. simpl in Hconns.
  apply lookup_insert_Some in Hconns as [[<- <-]|[_ Hconns]].
  - left. split; [done|].
    apply elem_of_cons in Hc as [->|Hc]; [by left|].
    apply list_elem_of_singleton in Hc as ->. by right.
  - apply lookup_singleton_Some in Hconns as [<- <-]. right. split; [done|].
    by apply list_elem_of_singleton in Hc as ->.
Qed.

Lemma diamond_has_no_cycle : ¬ reachable_cycle diamond nA.
Proof.
  intros (x & _ & Hcycle).
  assert (∀ a b, tc (edge diamond) a b → a ≠ b ∧ a ≠ "C" ∧ (a = "B" → b = "C"))
    as Hforward.
  { intros a b Hab. induction Hab as [a b Hab|a b c Hab _ IH].
    - by destruct (diamond_edges _ _ Hab) as [[-> [-> | ->]]|[-> ->]].
    - destruct IH as (Hne & HC & HB).
      destruct (diamond_edges _ _ Hab) as [[-> [-> | ->]]|[-> ->]]; try done.
      split_and!; try done. by rewrite (HB eq_refl). }
  by destruct (Hforward _ _ Hcycle) as [Hne _].
Qed.

(** X20 on A → B, A → C, B → C. *)
Lemma acyclic_run_has_no_repeats_witness :
  NoDup (node_id <$> executed (trace (run 5 diamond).2)) ∧
  (length (executed (trace (run 5 diamond).2)) ≤ length (nodes diamond))%nat.
Proof.
  apply (acyclic_run_has_no_repeats clock0 engine diamond 5 ∅ s0 (run 5 diamond).2
           (run 5 diamond).1 (trace (run 5 diamond).2)).
  - reflexivity.
  - reflexivity.
  - intros start [= <-]. exact diamond_has_no_cycle.
Defined.

(** X22 on n1 → n2 where the constructor of the type of n2 refuses the
    node: n1 is executed, n2 is not. *)
Lemma constructor_failure_aborts_run_witness :
  (∃ before,
     trace (executeWorkflow clock0 3 open_engine echo_then_picky ∅ s0).2
     = before ++ [EvNewThrew (blank "n2" "picky") ∅ (ErrorObj "no credentials")]) ∧
  (∅ : gmap string JSValue) = default ∅ (node_credentials (blank "n2" "picky")) ∧
  (∃ cls, nodeRegistry (open_engine (World:=unit)) !! node_type (blank "n2" "picky")
          = Some cls ∧
          new_throws cls (blank "n2" "picky") (ErrorObj "no credentials")) ∧
  reports (executeWorkflow clock0 3 open_engine echo_then_picky ∅ s0).1
          "no credentials".
Proof.
  apply (constructor_failure_aborts_run clock0 open_engine echo_then_picky 3 ∅ s0
           (executeWorkflow clock0 3 open_engine echo_then_picky ∅ s0).2
           (executeWorkflow clock0 3 open_engine echo_then_picky ∅ s0).1
           (trace (executeWorkflow clock0 3 open_engine echo_then_picky ∅ s0).2)
           (blank "n2" "picky") ∅ (ErrorObj "no credentials")).
  - reflexivity.
  - reflexivity.
  - vm_compute. do 2 apply list_elem_of_further. apply list_elem_of_here.
Defined.

End MoreScenarios.
